(** * Topology graph of the visual queue manager

    A shallow embedding of [TopologyGraph] (src/pages/ThemeEditor.tsx,
    lines 2589-3039): the node/edge derivation computed in its [useMemo]
    block, and the view state driven by its event handlers.

    Conventions.
    - A JS string is modelled by the [string] of its UTF-8 bytes; [===] on
      strings is [String.eqb]. Where the code counts or cuts a string
      ([.length], [.slice]) the model works on its UTF-16 code units,
      [codeUnits].
    - Node coordinates are JS numbers that only ever hold the integers
      [120 + index * 140] and [100 + index * 110]; an array index is below
      2^32, so these are exact in a double and are modelled in [Z].
    - [zoom] and [pan] are JS numbers that hold genuine fractions; they are
      modelled as binary64 floats ([PrimFloat]), with the rounding the
      source has.
    - [Array.prototype.find] is [List.find]; [forEach] with its index is
      [forEach] below, threading the array being pushed to.

    The file also embeds the drawing functions of [TopologyGraph] and the
    state handlers of [ThemeEditor] (same file, lines 2044-2196 and
    2435-2441): undo history, pages, assets and staging changes. There,
    what a handler reads from its environment (the clock, [Math.random],
    [confirm], object URLs) is an argument of the handler, toasts are left
    out, and each handler runs on the state of the render it was created
    in, one user event at a time. *)

From Stdlib Require Import List Ascii String ZArith NArith QArith Bool Lia.
From Stdlib Require Import DecimalString DecimalPos DecimalZ.
From Stdlib Require Import PrimFloat.
Import ListNotations.

Set Warnings "-inexact-float".

Local Open Scope string_scope.
Local Open Scope Z_scope.
Local Open Scope list_scope.

(** ** Entities (imported by the component from [../../types]) *)

Inductive ExchangeType :=
| direct | fanout | topic | headers | x_delayed_message | x_consistent_hash.

Record Exchange := mkExchange {
  exchange_id : string;
  exchange_name : string;
  exchange_type : ExchangeType
}.

Record Queue := mkQueue {
  queue_id : string;
  queue_name : string;
  queue_type : option string;
  messagesTotal : Z;
  consumers : Z;
  healthScore : Z
}.

Record Binding := mkBinding {
  binding_id : string;
  binding_source : string;
  binding_destination : string;
  binding_routingKey : string
}.

(** ** Derived graph *)

Inductive NodeType := exchange | queue.

(** [data: Exchange | Queue] *)
Inductive NodeData :=
| DataExchange (e : Exchange)
| DataQueue (q : Queue).

Record Node := mkNode {
  node_id : string;
  node_type : NodeType;
  node_name : string;
  node_x : Z;
  node_y : Z;
  node_data : NodeData
}.

Record Edge := mkEdge {
  edge_id : string;
  edge_source : string;
  edge_target : string;
  edge_routingKey : string
}.

(** ['all' | 'exchange' | 'queue']; the last two are written [only_exchange]
    and [only_queue] to keep them apart from the node types. *)
Inductive FilterType := all | only_exchange | only_queue.

Definition NodeType_eqb (a b : NodeType) : bool :=
  match a, b with
  | exchange, exchange | queue, queue => true
  | _, _ => false
  end.

(** [(n.data as Exchange).name] and [(n.data as Queue).name]: the cast is
    erased at run time, so both read the [name] property of whatever record
    [data] holds. *)
Definition data_name (d : NodeData) : string :=
  match d with
  | DataExchange e => exchange_name e
  | DataQueue q => queue_name q
  end.

(** ** The [useMemo] block *)

(** [arr.forEach((x, index) => ...)], the callback updating a state [S]. *)
Fixpoint forEachFrom {A S : Type} (f : S -> A -> Z -> S)
         (arr : list A) (index : Z) (st : S) : S :=
  match arr with
  | [] => st
  | x :: rest => forEachFrom f rest (index + 1) (f st x index)
  end.

Definition forEach {A S : Type} (f : S -> A -> Z -> S) (arr : list A) (st : S) : S :=
  forEachFrom f arr 0 st.

(** [nodeList.push(x)] *)
Definition push {A : Type} (arr : list A) (x : A) : list A := arr ++ [x].

Definition exchangeNode (e : Exchange) (index : Z) : Node :=
  {| node_id := exchange_id e;
     node_type := exchange;
     node_name := exchange_name e;
     node_x := 200;
     node_y := 120 + index * 140;
     node_data := DataExchange e |}.

Definition queueNode (q : Queue) (index : Z) : Node :=
  {| node_id := queue_id q;
     node_type := queue;
     node_name := queue_name q;
     node_x := 650;
     node_y := 100 + index * 110;
     node_data := DataQueue q |}.

Definition pushExchange (filterType : FilterType)
           (nodeList : list Node) (e : Exchange) (index : Z) : list Node :=
  match filterType with
  | only_queue => nodeList
  | _ => push nodeList (exchangeNode e index)
  end.

Definition pushQueue (filterType : FilterType)
           (nodeList : list Node) (q : Queue) (index : Z) : list Node :=
  match filterType with
  | only_exchange => nodeList
  | _ => push nodeList (queueNode q index)
  end.

(** The predicate given to [nodeList.find] for the source of a binding. *)
Definition sourceMatch (b : Binding) (n : Node) : bool :=
  (node_id n =? binding_source b)%string
  || (node_name n =? binding_source b)%string
  || (NodeType_eqb (node_type n) exchange
      && (data_name (node_data n) =? binding_source b)%string).

(** The predicate given to [nodeList.find] for the destination. *)
Definition targetMatch (b : Binding) (n : Node) : bool :=
  (node_id n =? binding_destination b)%string
  || (node_name n =? binding_destination b)%string
  || (NodeType_eqb (node_type n) queue
      && (data_name (node_data n) =? binding_destination b)%string).

Definition pushEdge (nodeList : list Node)
           (edgeList : list Edge) (b : Binding) (_ : Z) : list Edge :=
  let sourceNode := find (sourceMatch b) nodeList in
  let targetNode := find (targetMatch b) nodeList in
  match sourceNode, targetNode with
  | Some s, Some t =>
      push edgeList
           {| edge_id := binding_id b;
              edge_source := node_id s;
              edge_target := node_id t;
              edge_routingKey := binding_routingKey b |}
  | _, _ => edgeList
  end.

Record Graph := mkGraph { nodes : list Node; edges : list Edge }.

Definition resolve (exchanges : list Exchange) (queues : list Queue)
           (bindings : list Binding) (filterType : FilterType) : Graph :=
  let nodeList := forEach (pushExchange filterType) exchanges [] in
  let nodeList := forEach (pushQueue filterType) queues nodeList in
  let edgeList := forEach (pushEdge nodeList) bindings [] in
  {| nodes := nodeList; edges := edgeList |}.

(** ** View state and its handlers *)

(** [Math.min] and [Math.max] on two arguments: NaN if either is NaN, and
    the negative zero counts as smaller than the positive one. *)
Definition Math_min (a b : float) : float :=
  if is_nan a || is_nan b then nan
  else if (a <? b)%float then a
  else if (b <? a)%float then b
  else if get_sign a then a else b.

Definition Math_max (a b : float) : float :=
  if is_nan a || is_nan b then nan
  else if (a <? b)%float then b
  else if (b <? a)%float then a
  else if get_sign a then b else a.

Record Point := mkPoint { px : float; py : float }.

(** The seven [useState] cells of the component. *)
Record ViewState := mkViewState {
  zoom : float;
  pan : Point;
  selectedNode : option string;
  showLabels : bool;
  filterType : FilterType;
  isDragging : bool;
  dragStart : Point
}.

Definition initialView : ViewState :=
  {| zoom := 1;
     pan := mkPoint 0 0;
     selectedNode := None;
     showLabels := true;
     filterType := all;
     isDragging := false;
     dragStart := mkPoint 0 0 |}.

Definition setZoom (f : float -> float) (s : ViewState) : ViewState :=
  {| zoom := f (zoom s); pan := pan s; selectedNode := selectedNode s;
     showLabels := showLabels s; filterType := filterType s;
     isDragging := isDragging s; dragStart := dragStart s |}.

Definition setPan (p : Point) (s : ViewState) : ViewState :=
  {| zoom := zoom s; pan := p; selectedNode := selectedNode s;
     showLabels := showLabels s; filterType := filterType s;
     isDragging := isDragging s; dragStart := dragStart s |}.

Definition setSelectedNode (v : option string) (s : ViewState) : ViewState :=
  {| zoom := zoom s; pan := pan s; selectedNode := v;
     showLabels := showLabels s; filterType := filterType s;
     isDragging := isDragging s; dragStart := dragStart s |}.

Definition setShowLabels (v : bool) (s : ViewState) : ViewState :=
  {| zoom := zoom s; pan := pan s; selectedNode := selectedNode s;
     showLabels := v; filterType := filterType s;
     isDragging := isDragging s; dragStart := dragStart s |}.

Definition setFilterType (t : FilterType) (s : ViewState) : ViewState :=
  {| zoom := zoom s; pan := pan s; selectedNode := selectedNode s;
     showLabels := showLabels s; filterType := t;
     isDragging := isDragging s; dragStart := dragStart s |}.

Definition setIsDragging (v : bool) (s : ViewState) : ViewState :=
  {| zoom := zoom s; pan := pan s; selectedNode := selectedNode s;
     showLabels := showLabels s; filterType := filterType s;
     isDragging := v; dragStart := dragStart s |}.

Definition setDragStart (p : Point) (s : ViewState) : ViewState :=
  {| zoom := zoom s; pan := pan s; selectedNode := selectedNode s;
     showLabels := showLabels s; filterType := filterType s;
     isDragging := isDragging s; dragStart := p |}.

Definition handleZoomIn : ViewState -> ViewState :=
  setZoom (fun z => Math_min (z + 0.2) 2).

Definition handleZoomOut : ViewState -> ViewState :=
  setZoom (fun z => Math_max (z - 0.2) 0.5).

Definition handleResetView (s : ViewState) : ViewState :=
  setPan (mkPoint 0 0) (setZoom (fun _ => 1%float) s).

Definition handleMouseDown (clientX clientY : float) (s : ViewState) : ViewState :=
  setDragStart (mkPoint (clientX - px (pan s)) (clientY - py (pan s)))
               (setIsDragging true s).

Definition handleMouseMove (clientX clientY : float) (s : ViewState) : ViewState :=
  if isDragging s
  then setPan (mkPoint (clientX - px (dragStart s)) (clientY - py (dragStart s))) s
  else s.

Definition handleMouseUp : ViewState -> ViewState := setIsDragging false.

Definition option_string_eqb (a : option string) (b : string) : bool :=
  match a with
  | Some x => (x =? b)%string
  | None => false
  end.

(** The [onClick] of a node glyph:
    [setSelectedNode(isSelected ? null : node.id)] with
    [isSelected = selectedNode === node.id]. *)
Definition selectNode (id : string) (s : ViewState) : ViewState :=
  let isSelected := option_string_eqb (selectedNode s) id in
  setSelectedNode (if isSelected then None else Some id) s.

Definition toggleLabels (s : ViewState) : ViewState :=
  setShowLabels (negb (showLabels s)) s.

(** The user actions of the toolbar and the canvas. *)
Inductive Action :=
| ZoomIn | ZoomOut | ResetView
| MouseDown (clientX clientY : float)
| MouseMove (clientX clientY : float)
| MouseUp
| SelectNode (id : string)
| ToggleLabels
| SetFilterType (t : FilterType).

Definition step (s : ViewState) (a : Action) : ViewState :=
  match a with
  | ZoomIn => handleZoomIn s
  | ZoomOut => handleZoomOut s
  | ResetView => handleResetView s
  | MouseDown x y => handleMouseDown x y s
  | MouseMove x y => handleMouseMove x y s
  | MouseUp => handleMouseUp s
  | SelectNode id => selectNode id s
  | ToggleLabels => toggleLabels s
  | SetFilterType t => setFilterType t s
  end.

Definition run (acts : list Action) (s : ViewState) : ViewState :=
  fold_left step acts s.

(** The three zoom actions alone. *)
Inductive ZoomAction := zoomIn | zoomOut | resetView.

Definition zoomAction (a : ZoomAction) : Action :=
  match a with
  | zoomIn => ZoomIn
  | zoomOut => ZoomOut
  | resetView => ResetView
  end.

(** Every value [zoom] can take: the closure of the initial [1] under the
    three zoom handlers, computed with the handlers' own float arithmetic. *)
Definition float_mem (z : float) (l : list float) : bool :=
  existsb (fun w => (w =? z)%float) l.

Definition add_new (seen : list float) (z : float) : list float :=
  if float_mem z seen then seen else seen ++ [z].

Fixpoint zoomClosure (fuel : nat) (k : nat) (seen : list float) : list float :=
  match fuel with
  | O => seen
  | S fuel' =>
      match nth_error seen k with
      | None => seen
      | Some z =>
          let z' := zoom (handleZoomIn (setZoom (fun _ => z) initialView)) in
          let z'' := zoom (handleZoomOut (setZoom (fun _ => z) initialView)) in
          zoomClosure fuel' (S k) (add_new (add_new seen z') z'')
      end
  end.

Definition zoomOrbit : list float :=
  Eval vm_compute in zoomClosure 100 0 [zoom initialView].

(** * Auxiliary definitions *)

(** What the two node loops and the binding loop leave in their arrays. *)
Fixpoint mapFrom {A B : Type} (f : A -> Z -> B) (arr : list A) (index : Z) : list B :=
  match arr with
  | [] => []
  | x :: rest => f x index :: mapFrom f rest (index + 1)
  end.

Definition exchangeNodes (ft : FilterType) (exs : list Exchange) : list Node :=
  match ft with
  | only_queue => []
  | _ => mapFrom exchangeNode exs 0
  end.

Definition queueNodes (ft : FilterType) (qs : list Queue) : list Node :=
  match ft with
  | only_exchange => []
  | _ => mapFrom queueNode qs 0
  end.

Definition edgeOf (nodeList : list Node) (b : Binding) : list Edge :=
  pushEdge nodeList [] b 0.

(** On the nodes the resolver builds, the underlying record's name is the
    display name, so either [find] predicate tests the id and the name. *)
Definition idOrName (ref : string) (n : Node) : bool :=
  (node_id n =? ref)%string || (node_name n =? ref)%string.

(** A reference matches no node of a list: neither an id nor a display name
    equals it. *)
Definition matchesNoNode (ref : string) (nl : list Node) : Prop :=
  forall n, In n nl -> node_id n <> ref /\ node_name n <> ref.

Definition isQueueNode (n : Node) : bool := NodeType_eqb (node_type n) queue.
Definition isExchangeNode (n : Node) : bool := NodeType_eqb (node_type n) exchange.

(** The resolution as the specification words it: an ordered list of match
    strategies, each tried over all candidates before the next one. *)
Definition byId (ref : string) (n : Node) : bool := (node_id n =? ref)%string.

Definition byName (ref : string) (n : Node) : bool := (node_name n =? ref)%string.

Definition byRecordName (ty : NodeType) (ref : string) (n : Node) : bool :=
  NodeType_eqb (node_type n) ty && (data_name (node_data n) =? ref)%string.

Fixpoint findByPriority (strategies : list (string -> Node -> bool))
         (ref : string) (nl : list Node) : option Node :=
  match strategies with
  | [] => None
  | st :: rest =>
      match find (st ref) nl with
      | Some n => Some n
      | None => findByPriority rest ref nl
      end
  end.

Definition sourceStrategies : list (string -> Node -> bool) :=
  [byId; byName; byRecordName exchange].

Definition targetStrategies : list (string -> Node -> bool) :=
  [byId; byName; byRecordName queue].

(** ** Sample inputs *)

(** The scenario of the specification. *)
Definition ordersExchange : Exchange := mkExchange "e1" "orders" direct.

Definition ordersQueue : Queue := mkQueue "q1" "orders.q" None 10 1 90.

Definition ordersBinding : Binding :=
  mkBinding "b1" "orders" "orders.q" "order.created".

Definition danglingBinding : Binding :=
  mkBinding "b2" "nonexistent" "orders.q" "x".

(** An exchange and a queue that share the name "jobs". *)
Definition jobsExchange : Exchange := mkExchange "e9" "jobs" fanout.
Definition jobsQueue : Queue := mkQueue "q9" "jobs" None 0 0 100.
Definition jobsBinding : Binding := mkBinding "b9" "jobs" "jobs" "".

(** Bindings that name a queue as source, an exchange as destination, and
    both endpoints by id. *)
Definition queueLoopBinding : Binding := mkBinding "b3" "q1" "orders.q" "k".

Definition exchangeLoopBinding : Binding := mkBinding "b4" "e1" "orders" "k".

Definition idBinding : Binding := mkBinding "b6" "e1" "q1" "k".

(** Two exchanges with distinct ids; the first is named as the second's id. *)
Definition aliasExchanges : list Exchange :=
  [mkExchange "e1" "x" direct; mkExchange "x" "y" topic].

Definition aliasBinding : Binding := mkBinding "b5" "x" "orders.q" "k".

(** * Render projection *)

(** The views below record what [renderEdge], [renderExchangeNode] and
    [renderQueueNode] compute from the graph and the view state: keys,
    coordinates, selection styling and captions. Attributes that are constant
    in the JSX, icons and the locale-dependent statistics line are left
    out. Halves of integer coordinates are exact in a double and are kept in
    [Q]. *)

(** A JS string is a sequence of UTF-16 code units, and [.length] and
    [.slice] count code units. A [string] of this file holds a text as its
    UTF-8 bytes; [codeUnits] gives the code units the same text has in JS: one
    per character of the basic plane (one to three bytes), a surrogate pair
    per character beyond it (four bytes). Bytes that are not UTF-8 stand for
    no text and decode to U+FFFD. *)
Definition CodeUnit := N.

Definition JSString := list CodeUnit.

Definition isContinuation (b : N) : bool := (N.land b 192 =? 128)%N.

Fixpoint decodeUtf8 (bytes : list N) : JSString :=
  match bytes with
  | [] => []
  | b0 :: rest =>
      if (b0 <? 128)%N then b0 :: decodeUtf8 rest
      else
        match rest with
        | [] => [65533%N]
        | b1 :: rest1 =>
            if (192 <=? b0)%N && (b0 <? 224)%N && isContinuation b1
            then N.lor (N.shiftl (N.land b0 31) 6) (N.land b1 63) :: decodeUtf8 rest1
            else
              match rest1 with
              | [] => 65533%N :: decodeUtf8 rest
              | b2 :: rest2 =>
                  if (224 <=? b0)%N && (b0 <? 240)%N
                     && isContinuation b1 && isContinuation b2
                  then N.lor (N.shiftl (N.land b0 15) 12)
                             (N.lor (N.shiftl (N.land b1 63) 6) (N.land b2 63))
                       :: decodeUtf8 rest2
                  else
                    match rest2 with
                    | [] => 65533%N :: decodeUtf8 rest
                    | b3 :: rest3 =>
                        if (240 <=? b0)%N && (b0 <? 248)%N && isContinuation b1
                           && isContinuation b2 && isContinuation b3
                        then
                          let cp :=
                            N.lor (N.shiftl (N.land b0 7) 18)
                              (N.lor (N.shiftl (N.land b1 63) 12)
                                 (N.lor (N.shiftl (N.land b2 63) 6) (N.land b3 63))) in
                          let c := (cp - 65536)%N in
                          (55296 + N.shiftr c 10)%N :: (56320 + N.land c 1023)%N
                          :: decodeUtf8 rest3
                        else 65533%N :: decodeUtf8 rest
                    end
              end
        end
  end.

Definition codeUnits (s : string) : JSString :=
  decodeUtf8 (map N_of_ascii (list_ascii_of_string s)).

(** [s.length > limit ? `${s.slice(0, limit)}...` : s], the expression that
    shortens routing keys (limit 12) and node names (limit 14); the three
    dots are three units U+002E. *)
Definition truncateLabel (limit : nat) (s : JSString) : JSString :=
  if Nat.ltb limit (List.length s)
  then firstn limit s ++ [46%N; 46%N; 46%N]
  else s.

(** [getNodePosition]: the coordinates of the first node with the id, the
    origin when there is none. *)
Definition getNodePosition (nodeList : list Node) (nodeId : string) : Z * Z :=
  match find (fun n => (node_id n =? nodeId)%string) nodeList with
  | Some node => (node_x node, node_y node)
  | None => (0, 0)
  end.

(** The numbers of the path [M sx sy C mx sy, mx ty, tx ty]. *)
Record CurvePath := mkCurvePath {
  startX : Z; startY : Z;
  control1X : Q; control1Y : Z;
  control2X : Q; control2Y : Z;
  endX : Z; endY : Z
}.

Record EdgeLabel := mkEdgeLabel {
  label_rectX : Q; label_rectY : Q;
  label_textX : Q; label_textY : Q;
  label_text : JSString
}.

Record EdgeView := mkEdgeView {
  edge_key : string;
  edge_path : CurvePath;
  edge_glow : bool;
  edge_strokeWidth : Z;
  edge_strokeDasharray : string;
  edge_label : option EdgeLabel
}.

(** A JS string used as a condition: the empty string is falsy. *)
Definition truthy (s : string) : bool := negb (s =? "")%string.

Definition renderEdge (nodeList : list Node) (v : ViewState) (e : Edge) : EdgeView :=
  let source := getNodePosition nodeList (edge_source e) in
  let target := getNodePosition nodeList (edge_target e) in
  let sourceX := fst source + 70 in
  let targetX := fst target - 75 in
  let midX := (inject_Z (sourceX + targetX) / 2)%Q in
  let isSelected :=
    option_string_eqb (selectedNode v) (edge_source e)
    || option_string_eqb (selectedNode v) (edge_target e) in
  {| edge_key := edge_id e;
     edge_path := mkCurvePath sourceX (snd source) midX (snd source)
                              midX (snd target) targetX (snd target);
     edge_glow := isSelected;
     edge_strokeWidth := if isSelected then 3 else 2;
     edge_strokeDasharray := if isSelected then "" else "5,5";
     edge_label :=
       if showLabels v && truthy (edge_routingKey e)
       then Some {| label_rectX := (midX - 40)%Q;
                    label_rectY := (inject_Z (snd source + snd target) / 2 - 18)%Q;
                    label_textX := midX;
                    label_textY := (inject_Z (snd source + snd target) / 2 - 4)%Q;
                    label_text := truncateLabel 12 (codeUnits (edge_routingKey e)) |}
       else None |}.

Record ColorClasses := mkColorClasses { bg : string; border : string; text : string }.

Definition exchangeColors (t : ExchangeType) : ColorClasses :=
  match t with
  | direct => mkColorClasses "fill-blue-100 dark:fill-blue-900/30" "stroke-blue-500" "text-blue-600"
  | fanout => mkColorClasses "fill-purple-100 dark:fill-purple-900/30" "stroke-purple-500" "text-purple-600"
  | topic => mkColorClasses "fill-green-100 dark:fill-green-900/30" "stroke-green-500" "text-green-600"
  | headers => mkColorClasses "fill-orange-100 dark:fill-orange-900/30" "stroke-orange-500" "text-orange-600"
  | x_delayed_message => mkColorClasses "fill-pink-100 dark:fill-pink-900/30" "stroke-pink-500" "text-pink-600"
  | x_consistent_hash => mkColorClasses "fill-cyan-100 dark:fill-cyan-900/30" "stroke-cyan-500" "text-cyan-600"
  end.

(** The string an exchange type is in the source. *)
Definition ExchangeType_string (t : ExchangeType) : string :=
  match t with
  | direct => "direct"
  | fanout => "fanout"
  | topic => "topic"
  | headers => "headers"
  | x_delayed_message => "x-delayed-message"
  | x_consistent_hash => "x-consistent-hash"
  end.

Record ExchangeNodeView := mkExchangeNodeView {
  xnode_key : string;
  xnode_translateX : Z;
  xnode_translateY : Z;
  xnode_colors : ColorClasses;
  xnode_selected : bool;
  xnode_caption : option (JSString * string)
}.

Record QueueNodeView := mkQueueNodeView {
  qnode_key : string;
  qnode_translateX : Z;
  qnode_translateY : Z;
  qnode_selected : bool;
  qnode_healthBar : string;
  qnode_name : JSString
}.

(** [renderExchangeNode] reads [exchangeColors[exchange.type]] and then
    [colors.bg]: on a node whose [data] is not an exchange the table lookup
    is [undefined] and the property access throws, which is [None] here.
    The lookup is also [undefined] for an exchange whose run-time [type] is
    none of the six strings of [ExchangeType]; the entities here are typed as
    the component's imports declare them, so that case is not an input of
    this model. *)
Definition renderExchangeNode (v : ViewState) (node : Node) : option ExchangeNodeView :=
  match node_data node with
  | DataExchange ex =>
      Some {| xnode_key := node_id node;
              xnode_translateX := node_x node - 70;
              xnode_translateY := node_y node - 35;
              xnode_colors := exchangeColors (exchange_type ex);
              xnode_selected := option_string_eqb (selectedNode v) (node_id node);
              xnode_caption :=
                if showLabels v
                then Some (truncateLabel 14 (codeUnits (node_name node)),
                           String.append (ExchangeType_string (exchange_type ex)) " exchange")
                else None |}
  | DataQueue _ => None
  end.

(** [str.replace(pattern, replacement)] with a string pattern: the first
    occurrence only. *)
Definition String_replace (pattern replacement s : string) : string :=
  match String.index 0 pattern s with
  | Some i =>
      String.append (String.substring 0 i s)
        (String.append replacement
           (String.substring (i + String.length pattern)
                             (String.length s - (i + String.length pattern)) s))
  | None => s
  end.

Definition healthColor (score : Z) : string :=
  if 80 <=? score then "stroke-green-500"
  else if 50 <=? score then "stroke-yellow-500"
  else "stroke-red-500".

(** [renderQueueNode] calls [queue.messagesTotal.toLocaleString()]: on a node
    whose [data] is not a queue the field is [undefined] and the call throws,
    which is [None] here. A queue record without [messagesTotal] would throw
    as well; the declared type makes the field a number, and so does this
    model. *)
Definition renderQueueNode (v : ViewState) (node : Node) : option QueueNodeView :=
  match node_data node with
  | DataQueue q =>
      Some {| qnode_key := node_id node;
              qnode_translateX := node_x node - 75;
              qnode_translateY := node_y node - 35;
              qnode_selected := option_string_eqb (selectedNode v) (node_id node);
              qnode_healthBar := String_replace "stroke-" "fill-" (healthColor (healthScore q));
              qnode_name := truncateLabel 14 (codeUnits (node_name node)) |}
  | DataExchange _ => None
  end.

Inductive NodeView :=
| ExchangeGlyph (g : ExchangeNodeView)
| QueueGlyph (g : QueueNodeView).

(** [node.type === 'exchange' ? renderExchangeNode(node) : renderQueueNode(node)] *)
Definition renderNode (v : ViewState) (node : Node) : option NodeView :=
  match node_type node with
  | exchange => option_map ExchangeGlyph (renderExchangeNode v node)
  | queue => option_map QueueGlyph (renderQueueNode v node)
  end.

(** [nodes.map(...)]: the first throwing node aborts the render. *)
Fixpoint renderNodes (v : ViewState) (nodeList : list Node) : option (list NodeView) :=
  match nodeList with
  | [] => Some []
  | node :: rest =>
      match renderNode v node with
      | None => None
      | Some g =>
          match renderNodes v rest with
          | None => None
          | Some gs => Some (g :: gs)
          end
      end
  end.

Record Scene := mkScene {
  scene_edges : list EdgeView;
  scene_nodes : list NodeView
}.

(** The body of the transform group: the edges, then the nodes. *)
Definition renderScene (g : Graph) (v : ViewState) : option Scene :=
  let edgeViews := map (renderEdge (nodes g) v) (edges g) in
  match renderNodes v (nodes g) with
  | Some nodeViews => Some {| scene_edges := edgeViews; scene_nodes := nodeViews |}
  | None => None
  end.

(** A binding both of whose endpoints are found in a node list. *)
Definition resolves (nodeList : list Node) (b : Binding) : bool :=
  match find (sourceMatch b) nodeList, find (targetMatch b) nodeList with
  | Some _, Some _ => true
  | _, _ => false
  end.

(** [f] applied [n] times. *)
Fixpoint repeatedly {A : Type} (n : nat) (f : A -> A) (x : A) : A :=
  match n with
  | O => x
  | S n' => repeatedly n' f (f x)
  end.

(** The pointer actions of the canvas. *)
Definition isPointerAction (a : Action) : bool :=
  match a with
  | MouseDown _ _ | MouseMove _ _ | MouseUp => true
  | _ => false
  end.

Definition isMouseMove (a : Action) : bool :=
  match a with
  | MouseMove _ _ => true
  | _ => false
  end.


(** A glyph drawn without a caption under it. *)
Definition captionless (g : NodeView) : Prop :=
  match g with
  | ExchangeGlyph x => xnode_caption x = None
  | QueueGlyph _ => True
  end.

(** * The theme editor (the [ThemeEditor] component of the same file) *)

(** The parts of a theme that no handler below looks into are kept abstract:
    the handlers copy them as they are. *)
Record ConfigTypes := mkConfigTypes {
  ColorPalette : Type;
  TypographyConfig : Type;
  SpacingConfig : Type;
  BorderConfig : Type;
  ShadowConfig : Type;
  AnimationConfig : Type;
  ComponentStyles : Type;
  LayoutConfig : Type;
  TemplateConfig : Type
}.

Inductive PageType :=
| pt_homepage | pt_page | pt_post | pt_archive | pt_category
| pt_search | pt_404 | pt_single | pt_custom.

Record PageConfig := mkPageConfig {
  page_id : string;
  page_name : string;
  page_slug : string;
  page_type : PageType;
  page_template : string;
  page_html : string;
  page_css : string;
  page_js : string;
  page_isModified : bool
}.

(** [Partial<PageConfig>]: a key is present or absent. *)
Record PartialPageConfig := mkPartialPageConfig {
  upd_page_id : option string;
  upd_page_name : option string;
  upd_page_slug : option string;
  upd_page_type : option PageType;
  upd_page_template : option string;
  upd_page_html : option string;
  upd_page_css : option string;
  upd_page_js : option string;
  upd_page_isModified : option bool
}.

Inductive AssetType :=
| at_image | at_font | at_icon | at_svg | at_video | at_audio | at_document | at_other.

Inductive AssetCategory :=
| ac_logo | ac_background | ac_header | ac_footer | ac_icons | ac_fonts | ac_media | ac_other.

Record ThemeAsset := mkThemeAsset {
  asset_id : string;
  asset_name : string;
  asset_type : AssetType;
  asset_category : AssetCategory;
  asset_url : string;
  asset_thumbnail : option string;
  asset_size : Z;
  asset_dimensions : option (Z * Z);
  asset_mimeType : string;
  asset_uploadedAt : string;
  asset_usedIn : list string
}.

Record ThemeConfig {T : ConfigTypes} := mkThemeConfig {
  theme_id : string;
  theme_name : string;
  theme_version : string;
  theme_author : string;
  theme_colors : ColorPalette T;
  theme_typography : TypographyConfig T;
  theme_spacing : SpacingConfig T;
  theme_borders : BorderConfig T;
  theme_shadows : ShadowConfig T;
  theme_animations : AnimationConfig T;
  theme_components : ComponentStyles T;
  theme_layout : LayoutConfig T;
  theme_templates : list (TemplateConfig T);
  theme_pages : list PageConfig;
  theme_assets : list ThemeAsset;
  theme_customCSS : string;
  theme_customJS : string
}.

(** [Partial<ThemeConfig>] *)
Record PartialThemeConfig {T : ConfigTypes} := mkPartialThemeConfig {
  upd_id : option string;
  upd_name : option string;
  upd_version : option string;
  upd_author : option string;
  upd_colors : option (ColorPalette T);
  upd_typography : option (TypographyConfig T);
  upd_spacing : option (SpacingConfig T);
  upd_borders : option (BorderConfig T);
  upd_shadows : option (ShadowConfig T);
  upd_animations : option (AnimationConfig T);
  upd_components : option (ComponentStyles T);
  upd_layout : option (LayoutConfig T);
  upd_templates : option (list (TemplateConfig T));
  upd_pages : option (list PageConfig);
  upd_assets : option (list ThemeAsset);
  upd_customCSS : option string;
  upd_customJS : option string
}.

Inductive StagingChangeType := sc_css | sc_html | sc_js | sc_config.

Record StagingChange := mkStagingChange {
  change_id : string;
  change_type : StagingChangeType;
  change_page : option string;
  change_description : string;
  change_timestamp : string;
  change_diff : option string;
  change_committed : bool
}.

(** [Omit<StagingChange, 'id' | 'timestamp' | 'committed'>] *)
Record NewChange := mkNewChange {
  new_type : StagingChangeType;
  new_page : option string;
  new_description : string;
  new_diff : option string
}.

(** What a handler reads from the clock: [Date.now()], an integer number of
    milliseconds, and [new Date().toLocaleString()]. *)
Record Clock := mkClock { clock_now : Z; clock_localeString : string }.

(** An integer in a template literal. *)
Definition Number_toString (z : Z) : string :=
  DecimalString.NilZero.string_of_int (Z.to_int z).

(** An optional key with its default: [updates.k] over [prev.k] in
    [{ ...prev, ...updates }]. *)
Definition spread {A : Type} (prev : A) (upd : option A) : A :=
  match upd with
  | Some v => v
  | None => prev
  end.

Definition mergePage (p : PageConfig) (u : PartialPageConfig) : PageConfig :=
  {| page_id := spread (page_id p) (upd_page_id u);
     page_name := spread (page_name p) (upd_page_name u);
     page_slug := spread (page_slug p) (upd_page_slug u);
     page_type := spread (page_type p) (upd_page_type u);
     page_template := spread (page_template p) (upd_page_template u);
     page_html := spread (page_html p) (upd_page_html u);
     page_css := spread (page_css p) (upd_page_css u);
     page_js := spread (page_js p) (upd_page_js u);
     page_isModified := spread (page_isModified p) (upd_page_isModified u) |}.

Definition mergeTheme {T : ConfigTypes}
           (t : @ThemeConfig T) (u : @PartialThemeConfig T) : @ThemeConfig T :=
  {| theme_id := spread (theme_id t) (upd_id u);
     theme_name := spread (theme_name t) (upd_name u);
     theme_version := spread (theme_version t) (upd_version u);
     theme_author := spread (theme_author t) (upd_author u);
     theme_colors := spread (theme_colors t) (upd_colors u);
     theme_typography := spread (theme_typography t) (upd_typography u);
     theme_spacing := spread (theme_spacing t) (upd_spacing u);
     theme_borders := spread (theme_borders t) (upd_borders u);
     theme_shadows := spread (theme_shadows t) (upd_shadows u);
     theme_animations := spread (theme_animations t) (upd_animations u);
     theme_components := spread (theme_components t) (upd_components u);
     theme_layout := spread (theme_layout t) (upd_layout u);
     theme_templates := spread (theme_templates t) (upd_templates u);
     theme_pages := spread (theme_pages t) (upd_pages u);
     theme_assets := spread (theme_assets t) (upd_assets u);
     theme_customCSS := spread (theme_customCSS t) (upd_customCSS u);
     theme_customJS := spread (theme_customJS t) (upd_customJS u) |}.

(** [{ ...prev, pages }] and [{ ...prev, assets }] *)
Definition withPages {T : ConfigTypes}
           (t : @ThemeConfig T) (ps : list PageConfig) : @ThemeConfig T :=
  {| theme_id := theme_id t; theme_name := theme_name t;
     theme_version := theme_version t; theme_author := theme_author t;
     theme_colors := theme_colors t; theme_typography := theme_typography t;
     theme_spacing := theme_spacing t; theme_borders := theme_borders t;
     theme_shadows := theme_shadows t; theme_animations := theme_animations t;
     theme_components := theme_components t; theme_layout := theme_layout t;
     theme_templates := theme_templates t;
     theme_pages := ps;
     theme_assets := theme_assets t;
     theme_customCSS := theme_customCSS t; theme_customJS := theme_customJS t |}.

Definition withAssets {T : ConfigTypes}
           (t : @ThemeConfig T) (az : list ThemeAsset) : @ThemeConfig T :=
  {| theme_id := theme_id t; theme_name := theme_name t;
     theme_version := theme_version t; theme_author := theme_author t;
     theme_colors := theme_colors t; theme_typography := theme_typography t;
     theme_spacing := theme_spacing t; theme_borders := theme_borders t;
     theme_shadows := theme_shadows t; theme_animations := theme_animations t;
     theme_components := theme_components t; theme_layout := theme_layout t;
     theme_templates := theme_templates t;
     theme_pages := theme_pages t;
     theme_assets := az;
     theme_customCSS := theme_customCSS t; theme_customJS := theme_customJS t |}.

(** The [useState] cells the handlers below read or write. *)
Record EditorState {T : ConfigTypes} := mkEditorState {
  theme : @ThemeConfig T;
  history : list (@ThemeConfig T);
  historyIndex : nat;
  stagingChanges : list StagingChange
}.

Definition initialEditor {T : ConfigTypes} (defaultTheme : @ThemeConfig T)
  : @EditorState T :=
  {| theme := defaultTheme;
     history := [defaultTheme];
     historyIndex := 0;
     stagingChanges := [] |}.

Definition setTheme {T : ConfigTypes}
           (f : @ThemeConfig T -> @ThemeConfig T) (st : @EditorState T) : @EditorState T :=
  {| theme := f (theme st); history := history st;
     historyIndex := historyIndex st; stagingChanges := stagingChanges st |}.

Definition setStagingChanges {T : ConfigTypes}
           (f : list StagingChange -> list StagingChange)
           (st : @EditorState T) : @EditorState T :=
  {| theme := theme st; history := history st;
     historyIndex := historyIndex st; stagingChanges := f (stagingChanges st) |}.

Definition addStagingChange {T : ConfigTypes}
           (clk : Clock) (change : NewChange) : @EditorState T -> @EditorState T :=
  setStagingChanges (fun prev =>
    prev ++ [ {| change_id := String.append "change-" (Number_toString (clock_now clk));
                 change_type := new_type change;
                 change_page := new_page change;
                 change_description := new_description change;
                 change_timestamp := clock_localeString clk;
                 change_diff := new_diff change;
                 change_committed := false |} ]).

(** An optional string used as a condition. *)
Definition truthyOpt (o : option string) : bool :=
  match o with
  | Some s => truthy s
  | None => false
  end.

(** [history.slice(0, historyIndex + 1)], the new theme pushed, and the index
    set to the last position. *)
Definition updateTheme {T : ConfigTypes} (clk : Clock)
           (updates : @PartialThemeConfig T) (description : option string)
           (st : @EditorState T) : @EditorState T :=
  let newTheme := mergeTheme (theme st) updates in
  let newHistory := firstn (historyIndex st + 1) (history st) ++ [newTheme] in
  let st' :=
    {| theme := newTheme;
       history := newHistory;
       historyIndex := List.length newHistory - 1;
       stagingChanges := stagingChanges st |} in
  if truthyOpt description
  then addStagingChange clk
         (mkNewChange sc_config None (spread "" description) None) st'
  else st'.

(** [history[i]] is [undefined] outside the array; a theme set to
    [undefined] is outside the state's type, which is [None] here. *)
Definition undo {T : ConfigTypes} (st : @EditorState T) : option (@EditorState T) :=
  if Nat.ltb 0 (historyIndex st)
  then match nth_error (history st) (historyIndex st - 1) with
       | Some t =>
           Some {| theme := t; history := history st;
                   historyIndex := historyIndex st - 1;
                   stagingChanges := stagingChanges st |}
       | None => None
       end
  else Some st.

Definition redo {T : ConfigTypes} (st : @EditorState T) : option (@EditorState T) :=
  if Nat.ltb (historyIndex st + 1) (List.length (history st))
  then match nth_error (history st) (historyIndex st + 1) with
       | Some t =>
           Some {| theme := t; history := history st;
                   historyIndex := historyIndex st + 1;
                   stagingChanges := stagingChanges st |}
       | None => None
       end
  else Some st.

(** [page?.name] in a template literal. *)
Definition optionalName (p : option PageConfig) : string :=
  match p with
  | Some page => page_name page
  | None => "undefined"
  end.

Definition handlePageChange {T : ConfigTypes} (clk : Clock) (pageId : string)
           (updates : PartialPageConfig) (st : @EditorState T) : @EditorState T :=
  let st' :=
    setTheme (fun prev =>
      withPages prev
        (map (fun p => if (page_id p =? pageId)%string then mergePage p updates else p)
             (theme_pages prev))) st in
  if truthyOpt (upd_page_html updates) || truthyOpt (upd_page_css updates)
     || truthyOpt (upd_page_js updates)
  then
    let page := find (fun p => (page_id p =? pageId)%string) (theme_pages (theme st)) in
    addStagingChange clk
      {| new_type := if truthyOpt (upd_page_html updates) then sc_html
                     else if truthyOpt (upd_page_css updates) then sc_css
                     else sc_js;
         new_page := option_map page_name page;
         new_description :=
           String.append "Updated "
             (String.append
                (if truthyOpt (upd_page_html updates) then "HTML"
                 else if truthyOpt (upd_page_css updates) then "CSS"
                 else "JavaScript")
                (String.append " for " (optionalName page)));
         new_diff := None |} st'
  else st'.

Definition handleAddPage {T : ConfigTypes} (clk : Clock) (page : PageConfig)
           (st : @EditorState T) : @EditorState T :=
  addStagingChange clk
    (mkNewChange sc_html (Some (page_name page))
                 (String.append "Added new page: " (page_name page)) None)
    (setTheme (fun prev => withPages prev (theme_pages prev ++ [page])) st).

Definition handleDeletePage {T : ConfigTypes} (clk : Clock) (pageId : string)
           (st : @EditorState T) : @EditorState T :=
  let page := find (fun p => (page_id p =? pageId)%string) (theme_pages (theme st)) in
  let st' :=
    setTheme (fun prev =>
      withPages prev
        (filter (fun p => negb (page_id p =? pageId)%string) (theme_pages prev))) st in
  match page with
  | Some p =>
      addStagingChange clk
        (mkNewChange sc_config None
                     (String.append "Deleted page: " (page_name p)) None) st'
  | None => st'
  end.

Definition renameAsset (newName : string) (a : ThemeAsset) : ThemeAsset :=
  {| asset_id := asset_id a; asset_name := newName;
     asset_type := asset_type a; asset_category := asset_category a;
     asset_url := asset_url a; asset_thumbnail := asset_thumbnail a;
     asset_size := asset_size a; asset_dimensions := asset_dimensions a;
     asset_mimeType := asset_mimeType a; asset_uploadedAt := asset_uploadedAt a;
     asset_usedIn := asset_usedIn a |}.

Definition handleAssetRename {T : ConfigTypes} (assetId newName : string)
  : @EditorState T -> @EditorState T :=
  setTheme (fun prev =>
    withAssets prev
      (map (fun a => if (asset_id a =? assetId)%string then renameAsset newName a else a)
           (theme_assets prev))).

(** [confirmed] is the answer [confirm] gives; it is asked for only when the
    asset exists. *)
Definition handleAssetDelete {T : ConfigTypes} (clk : Clock) (confirmed : bool)
           (assetId : string) (st : @EditorState T) : @EditorState T :=
  match find (fun a => (asset_id a =? assetId)%string) (theme_assets (theme st)) with
  | Some asset =>
      if confirmed
      then addStagingChange clk
             (mkNewChange sc_config None
                          (String.append "Deleted asset: " (asset_name asset)) None)
             (setTheme (fun prev =>
                withAssets prev
                  (filter (fun a => negb (asset_id a =? assetId)%string)
                          (theme_assets prev))) st)
      else st
  | None => st
  end.

(** A [File] as the handlers read it. *)
Record File := mkFile { file_name : string; file_type : string; file_size : Z }.

(** [name.match(/\.(woff2?|ttf|otf|eot)$/)]: the name ends in one of the five
    font extensions. *)
Definition endsWith (suffix s : string) : bool :=
  Nat.leb (String.length suffix) (String.length s)
  && (String.substring (String.length s - String.length suffix)
                       (String.length suffix) s =? suffix)%string.

Definition hasFontExtension (name : string) : bool :=
  endsWith ".woff" name || endsWith ".woff2" name || endsWith ".ttf" name
  || endsWith ".otf" name || endsWith ".eot" name.

(** The chain of conditionals that types an uploaded file;
    [String.prefix p s] is [s.startsWith(p)]. *)
Definition uploadedAssetType (file : File) : AssetType :=
  if String.prefix "image/svg" (file_type file) then at_svg
  else if String.prefix "image/" (file_type file) then at_image
  else if String.prefix "font/" (file_type file) || hasFontExtension (file_name file)
       then at_font
  else if String.prefix "video/" (file_type file) then at_video
  else if String.prefix "audio/" (file_type file) then at_audio
  else at_other.

(** What the upload of one file reads from its environment: [Date.now()] and
    [Math.random().toString(36).slice(2)] for the id, the object URL, the
    date part of [toISOString()], and the clock of [addStagingChange]. *)
Record UploadEnv := mkUploadEnv {
  env_idNow : Z;
  env_random : string;
  env_objectURL : string;
  env_isoDate : string;
  env_clock : Clock
}.

Definition uploadedAsset (file : File) (env : UploadEnv) : ThemeAsset :=
  {| asset_id :=
       String.append "asset-"
         (String.append (Number_toString (env_idNow env))
                        (String.append "-" (env_random env)));
     asset_name := file_name file;
     asset_type := uploadedAssetType file;
     asset_category := ac_other;
     asset_url := env_objectURL env;
     asset_thumbnail := None;
     asset_size := file_size file;
     asset_dimensions := None;
     asset_mimeType := file_type file;
     asset_uploadedAt := env_isoDate env;
     asset_usedIn := [] |}.

Definition uploadOne {T : ConfigTypes} (st : @EditorState T)
           (fe : File * UploadEnv) : @EditorState T :=
  addStagingChange (env_clock (snd fe))
    (mkNewChange sc_config None
                 (String.append "Uploaded asset: " (file_name (fst fe))) None)
    (setTheme (fun prev =>
       withAssets prev (theme_assets prev ++ [uploadedAsset (fst fe) (snd fe)])) st).

(** [Array.from(files).forEach(...)] *)
Definition handleAssetUpload {T : ConfigTypes} (files : list (File * UploadEnv))
           (st : @EditorState T) : @EditorState T :=
  fold_left uploadOne files st.

Definition replaceAsset (file : File) (objectURL isoDate : string) (a : ThemeAsset)
  : ThemeAsset :=
  {| asset_id := asset_id a; asset_name := file_name file;
     asset_type := asset_type a; asset_category := asset_category a;
     asset_url := objectURL; asset_thumbnail := asset_thumbnail a;
     asset_size := file_size file; asset_dimensions := asset_dimensions a;
     asset_mimeType := file_type file; asset_uploadedAt := isoDate;
     asset_usedIn := asset_usedIn a |}.

Definition handleAssetReplace {T : ConfigTypes} (assetId : string) (file : File)
           (objectURL isoDate : string) : @EditorState T -> @EditorState T :=
  setTheme (fun prev =>
    withAssets prev
      (map (fun a => if (asset_id a =? assetId)%string
                     then replaceAsset file objectURL isoDate a else a)
           (theme_assets prev))).

(** The two handlers passed to the git panel. *)
Definition markCommitted (c : StagingChange) : StagingChange :=
  {| change_id := change_id c; change_type := change_type c;
     change_page := change_page c; change_description := change_description c;
     change_timestamp := change_timestamp c; change_diff := change_diff c;
     change_committed := true |}.

Definition onCommit {T : ConfigTypes} (msg : string)
  : @EditorState T -> @EditorState T :=
  setStagingChanges (map markCommitted).

Definition onDiscard {T : ConfigTypes} (id : string)
  : @EditorState T -> @EditorState T :=
  setStagingChanges (filter (fun c => negb (change_id c =? id)%string)).

(** [stagingChanges.filter(c => !c.committed)], the list behind the badge
    and the staging tab. *)
Definition uncommitted (cs : list StagingChange) : list StagingChange :=
  filter (fun c => negb (change_committed c)) cs.

Inductive EditorAction {T : ConfigTypes} :=
| UpdateTheme (clk : Clock) (updates : @PartialThemeConfig T) (description : option string)
| Undo
| Redo
| PageChange (clk : Clock) (pageId : string) (updates : PartialPageConfig)
| AddPage (clk : Clock) (page : PageConfig)
| DeletePage (clk : Clock) (pageId : string)
| AssetRename (assetId newName : string)
| AssetDelete (clk : Clock) (confirmed : bool) (assetId : string)
| AssetUpload (files : list (File * UploadEnv))
| AssetReplace (assetId : string) (file : File) (objectURL isoDate : string)
| Commit (msg : string)
| Discard (id : string).

Definition editorStep {T : ConfigTypes} (st : @EditorState T) (a : @EditorAction T)
  : option (@EditorState T) :=
  match a with
  | UpdateTheme clk updates description => Some (updateTheme clk updates description st)
  | Undo => undo st
  | Redo => redo st
  | PageChange clk pageId updates => Some (handlePageChange clk pageId updates st)
  | AddPage clk page => Some (handleAddPage clk page st)
  | DeletePage clk pageId => Some (handleDeletePage clk pageId st)
  | AssetRename assetId newName => Some (handleAssetRename assetId newName st)
  | AssetDelete clk confirmed assetId => Some (handleAssetDelete clk confirmed assetId st)
  | AssetUpload files => Some (handleAssetUpload files st)
  | AssetReplace assetId file objectURL isoDate =>
      Some (handleAssetReplace assetId file objectURL isoDate st)
  | Commit msg => Some (onCommit msg st)
  | Discard id => Some (onDiscard id st)
  end.

Fixpoint runEditor {T : ConfigTypes} (acts : list (@EditorAction T))
         (st : @EditorState T) : option (@EditorState T) :=
  match acts with
  | [] => Some st
  | a :: rest =>
      match editorStep st a with
      | Some st' => runEditor rest st'
      | None => None
      end
  end.

(** The actions that edit pages, assets or staging entries and leave the
    undo history alone. *)
Definition isContentAction {T : ConfigTypes} (a : @EditorAction T) : bool :=
  match a with
  | UpdateTheme _ _ _ | Undo | Redo => false
  | _ => true
  end.

(** The entry [addStagingChange] appends. *)
Definition stagedEntry (clk : Clock) (change : NewChange) : StagingChange :=
  {| change_id := String.append "change-" (Number_toString (clock_now clk));
     change_type := new_type change;
     change_page := new_page change;
     change_description := new_description change;
     change_timestamp := clock_localeString clk;
     change_diff := new_diff change;
     change_committed := false |}.

(** The condition under which [handlePageChange] records a change. *)
Definition touchesCode (u : PartialPageConfig) : bool :=
  truthyOpt (upd_page_html u) || truthyOpt (upd_page_css u) || truthyOpt (upd_page_js u).

(** The index points into the history. *)
Definition indexInRange {T : ConfigTypes} (st : @EditorState T) : Prop :=
  (historyIndex st < List.length (history st))%nat.

(** The theme shown is the one the history holds at the index. *)
Definition inSync {T : ConfigTypes} (st : @EditorState T) : Prop :=
  nth_error (history st) (historyIndex st) = Some (theme st).

(** Sample theme over trivial sub-configurations. *)
Definition unitConfig : ConfigTypes :=
  mkConfigTypes unit unit unit unit unit unit unit unit unit.

Definition homePage : PageConfig :=
  mkPageConfig "home" "Homepage" "/" pt_homepage "homepage" "" "" "" false.

Definition aboutPage : PageConfig :=
  mkPageConfig "about" "About" "/about" pt_page "default" "" "" "" false.

Definition sampleTheme : @ThemeConfig unitConfig :=
  mkThemeConfig unitConfig "default" "Default Theme" "1.0.0" "RustPress"
                tt tt tt tt tt tt tt tt [] [homePage; aboutPage] [] "" "".

Definition noThemeUpdate : @PartialThemeConfig unitConfig :=
  mkPartialThemeConfig unitConfig None None None None None None None None None
                       None None None None None None None None.

Definition renameTheme (name : string) : @PartialThemeConfig unitConfig :=
  mkPartialThemeConfig unitConfig None (Some name) None None None None None None None
                       None None None None None None None None.

Definition noPageUpdate : PartialPageConfig :=
  mkPartialPageConfig None None None None None None None None None.

Definition htmlUpdate (html : string) : PartialPageConfig :=
  mkPartialPageConfig None None None None None (Some html) None None None.

Definition noon : Clock := mkClock 1736500000000 "1/10/2025, 12:00:00 PM".

Definition logoAsset : ThemeAsset :=
  mkThemeAsset "asset-1" "logo.png" at_image ac_logo "/assets/logo.png" None
               2048 None "image/png" "2025-01-10" [].

Definition themeWithLogo : @ThemeConfig unitConfig :=
  withAssets sampleTheme [logoAsset].

Definition fontFile : File := mkFile "Inter.woff2" "" 51200.

Definition uploadEnv1 : UploadEnv :=
  mkUploadEnv 1736500000000 "k3j9x2" "blob:1" "2025-01-10" noon.

Definition laterThanNoon : Clock := mkClock 1736500000001 "1/10/2025, 12:00:00 PM".

(** * Properties of the resolver *)

(** ** [find] returns the first match in list order *)

Section Find.
Context {A : Type}.
Variables f g : A -> bool.

Lemma find_append (l1 l2 : list A) :
  find f (l1 ++ l2)
  = match find f l1 with Some x => Some x | None => find f l2 end.
Proof.
  induction l1 as [|a l1 IH]; simpl; [reflexivity|].
  destruct (f a); auto.
Qed.

Lemma find_none_iff (l : list A) :
  find f l = None <-> forall x, In x l -> f x = false.
Proof.
  split; [apply find_none|].
  induction l as [|a l IH]; simpl; intros H; [reflexivity|].
  rewrite (H a) by now left. apply IH; intros; apply H; now right.
Qed.

Lemma find_first (l : list A) (x : A) :
  find f l = Some x <->
  exists l1 l2, l = l1 ++ x :: l2 /\ f x = true
                /\ Forall (fun m => f m = false) l1.
Proof.
  induction l as [|a l IH]; simpl.
  - split; [discriminate|]. intros (l1 & l2 & H & _); destruct l1; discriminate.
  - destruct (f a) eqn:Fa; split.
    + intros [= <-]. exists [], l; auto.
    + intros (l1 & l2 & H & Fx & Hl1). destruct l1 as [|m l1]; simpl in H.
      * now injection H as ->.
      * injection H as -> _. inversion Hl1; congruence.
    + intros H. apply IH in H as (l1 & l2 & -> & Fx & Hl1).
      exists (a :: l1), l2; auto.
    + intros (l1 & l2 & H & Fx & Hl1). destruct l1 as [|m l1]; simpl in H.
      * injection H as -> _. congruence.
      * injection H as -> ->. apply IH. exists l1, l2.
        inversion Hl1; auto.
Qed.

Lemma find_agree (l : list A) :
  (forall x, In x l -> f x = g x) -> find f l = find g l.
Proof.
  induction l as [|a l IH]; simpl; intros H; [reflexivity|].
  rewrite <- (H a) by now left. destruct (f a); auto.
Qed.
End Find.

(** ** What the loops compute *)

Lemma forEach_pushExchange ft exs i acc :
  forEachFrom (pushExchange ft) exs i acc
  = acc ++ match ft with only_queue => [] | _ => mapFrom exchangeNode exs i end.
Proof.
  revert i acc; induction exs as [|e exs IH]; intros i acc; simpl.
  - destruct ft; now rewrite app_nil_r.
  - rewrite IH. destruct ft; unfold pushExchange, push; simpl;
      rewrite <- ?app_assoc; reflexivity.
Qed.

Lemma forEach_pushQueue ft qs i acc :
  forEachFrom (pushQueue ft) qs i acc
  = acc ++ match ft with only_exchange => [] | _ => mapFrom queueNode qs i end.
Proof.
  revert i acc; induction qs as [|q qs IH]; intros i acc; simpl.
  - destruct ft; now rewrite app_nil_r.
  - rewrite IH. destruct ft; unfold pushQueue, push; simpl;
      rewrite <- ?app_assoc; reflexivity.
Qed.

Lemma pushEdge_app nl acc b i : pushEdge nl acc b i = acc ++ edgeOf nl b.
Proof.
  unfold edgeOf, pushEdge, push.
  destruct (find (sourceMatch b) nl), (find (targetMatch b) nl); simpl;
    now rewrite ?app_nil_r.
Qed.

Lemma forEach_pushEdge nl bs i acc :
  forEachFrom (pushEdge nl) bs i acc = acc ++ flat_map (edgeOf nl) bs.
Proof.
  revert i acc; induction bs as [|b bs IH]; intros i acc; simpl.
  - now rewrite app_nil_r.
  - rewrite IH, pushEdge_app, <- app_assoc. reflexivity.
Qed.

Lemma resolve_nodes exs qs bs ft :
  nodes (resolve exs qs bs ft) = exchangeNodes ft exs ++ queueNodes ft qs.
Proof.
  unfold resolve, forEach; simpl.
  rewrite forEach_pushQueue, forEach_pushExchange. reflexivity.
Qed.

Lemma resolve_edges exs qs bs ft :
  edges (resolve exs qs bs ft)
  = flat_map (edgeOf (nodes (resolve exs qs bs ft))) bs.
Proof.
  unfold resolve, forEach; simpl. now rewrite forEach_pushEdge.
Qed.

Lemma in_edgeOf nl b e :
  In e (edgeOf nl b) <->
  exists s t, find (sourceMatch b) nl = Some s
           /\ find (targetMatch b) nl = Some t
           /\ e = mkEdge (binding_id b) (node_id s) (node_id t) (binding_routingKey b).
Proof.
  unfold edgeOf, pushEdge, push.
  destruct (find (sourceMatch b) nl) as [s|], (find (targetMatch b) nl) as [t|];
    simpl; split.
  all: try (intros [<-|[]]; eauto).
  all: try (intros (s' & t' & Hs & Ht & ->); congruence).
  all: try tauto.
  intros (s' & t' & Hs & Ht & ->). injection Hs as <-. injection Ht as <-. now left.
Qed.

Lemma in_mapFrom_exchange exs i n :
  In n (mapFrom exchangeNode exs i) ->
  exists e, In e exs /\ node_type n = exchange
         /\ node_id n = exchange_id e /\ node_name n = exchange_name e
         /\ node_data n = DataExchange e /\ node_x n = 200.
Proof.
  revert i; induction exs as [|e exs IH]; intros i; simpl; [tauto|].
  intros [<-|H].
  - exists e; simpl; auto 10.
  - destruct (IH _ H) as (e' & ? & ?); exists e'; auto.
Qed.

Lemma in_mapFrom_queue qs i n :
  In n (mapFrom queueNode qs i) ->
  exists q, In q qs /\ node_type n = queue
         /\ node_id n = queue_id q /\ node_name n = queue_name q
         /\ node_data n = DataQueue q /\ node_x n = 650.
Proof.
  revert i; induction qs as [|q qs IH]; intros i; simpl; [tauto|].
  intros [<-|H].
  - exists q; simpl; auto 10.
  - destruct (IH _ H) as (q' & ? & ?); exists q'; auto.
Qed.

Lemma in_exchangeNodes ft exs n :
  In n (exchangeNodes ft exs) ->
  ft <> only_queue /\
  exists e, In e exs /\ node_type n = exchange
         /\ node_id n = exchange_id e /\ node_name n = exchange_name e
         /\ node_data n = DataExchange e /\ node_x n = 200.
Proof.
  unfold exchangeNodes; destruct ft; simpl; try tauto;
    (intros H; split; [discriminate | eapply in_mapFrom_exchange; eauto]).
Qed.

Lemma in_queueNodes ft qs n :
  In n (queueNodes ft qs) ->
  ft <> only_exchange /\
  exists q, In q qs /\ node_type n = queue
         /\ node_id n = queue_id q /\ node_name n = queue_name q
         /\ node_data n = DataQueue q /\ node_x n = 650.
Proof.
  unfold queueNodes; destruct ft; simpl; try tauto;
    (intros H; split; [discriminate | eapply in_mapFrom_queue; eauto]).
Qed.

(** ** The scenario of the specification *)

(** C5. On exchanges [{id:'e1',name:'orders',type:'direct'}], queues
    [{id:'q1',name:'orders.q',messagesTotal:10,consumers:1,healthScore:90}],
    bindings [{id:'b1',source:'orders',destination:'orders.q',
    routingKey:'order.created'}] and filter 'all', the resolver yields exactly
    one exchange node at (200,120), exactly one queue node at (650,100), and
    exactly one edge, with id 'b1', source 'e1', target 'q1' and routing key
    'order.created'. *)
Theorem scenario_orders :
  resolve [ordersExchange] [ordersQueue] [ordersBinding] all
  = {| nodes := [ mkNode "e1" exchange "orders" 200 120 (DataExchange ordersExchange);
                  mkNode "q1" queue "orders.q" 650 100 (DataQueue ordersQueue) ];
       edges := [ mkEdge "b1" "e1" "q1" "order.created" ] |}.
Proof. reflexivity. Qed.

(** ** No dangling edges *)

(** C1. For every input, each edge of the output has as source and as target
    the id of some node of the output node list. *)
Theorem edges_never_dangle exs qs bs ft e :
  In e (edges (resolve exs qs bs ft)) ->
  (exists n, In n (nodes (resolve exs qs bs ft)) /\ node_id n = edge_source e)
  /\ (exists n, In n (nodes (resolve exs qs bs ft)) /\ node_id n = edge_target e).
Proof.
  rewrite resolve_edges. intros H.
  apply in_flat_map in H as (b & _ & H).
  apply in_edgeOf in H as (s & t & Hs & Ht & ->).
  apply find_some in Hs as [Hs _]. apply find_some in Ht as [Ht _].
  split; [exists s | exists t]; auto.
Qed.

Lemma edges_never_dangle_witness :
  In (mkEdge "b1" "e1" "q1" "order.created")
     (edges (resolve [ordersExchange] [ordersQueue] [ordersBinding] all))
  /\ (exists n, In n (nodes (resolve [ordersExchange] [ordersQueue] [ordersBinding] all))
                /\ node_id n = "e1")
  /\ (exists n, In n (nodes (resolve [ordersExchange] [ordersQueue] [ordersBinding] all))
                /\ node_id n = "q1").
Proof.
  split.
  - simpl. left. reflexivity.
  - apply (edges_never_dangle [ordersExchange] [ordersQueue] [ordersBinding] all
             (mkEdge "b1" "e1" "q1" "order.created")).
    simpl. left. reflexivity.
Defined.

(** ** Unresolved endpoints *)

Lemma in_resolve_nodes exs qs bs ft n :
  In n (nodes (resolve exs qs bs ft)) ->
  In n (exchangeNodes ft exs) \/ In n (queueNodes ft qs).
Proof. rewrite resolve_nodes. apply in_app_or. Qed.

Lemma resolve_data_name exs qs bs ft n :
  In n (nodes (resolve exs qs bs ft)) -> data_name (node_data n) = node_name n.
Proof.
  intros H. apply in_resolve_nodes in H as [H|H].
  - apply in_exchangeNodes in H as (_ & e & _ & _ & _ & -> & -> & _). reflexivity.
  - apply in_queueNodes in H as (_ & q & _ & _ & _ & -> & -> & _). reflexivity.
Qed.

Lemma sourceMatch_idOrName exs qs bs ft b n :
  In n (nodes (resolve exs qs bs ft)) ->
  sourceMatch b n = idOrName (binding_source b) n.
Proof.
  intros H. unfold sourceMatch, idOrName.
  rewrite (resolve_data_name _ _ _ _ _ H).
  destruct (node_id n =? _)%string, (node_name n =? _)%string,
    (NodeType_eqb _ _); reflexivity.
Qed.

Lemma targetMatch_idOrName exs qs bs ft b n :
  In n (nodes (resolve exs qs bs ft)) ->
  targetMatch b n = idOrName (binding_destination b) n.
Proof.
  intros H. unfold targetMatch, idOrName.
  rewrite (resolve_data_name _ _ _ _ _ H).
  destruct (node_id n =? _)%string, (node_name n =? _)%string,
    (NodeType_eqb _ _); reflexivity.
Qed.

Lemma idOrName_false ref n :
  idOrName ref n = false <-> node_id n <> ref /\ node_name n <> ref.
Proof.
  unfold idOrName. rewrite orb_false_iff, !String.eqb_neq. tauto.
Qed.

Lemma idOrName_true ref n :
  idOrName ref n = true <-> node_id n = ref \/ node_name n = ref.
Proof.
  unfold idOrName. rewrite orb_true_iff, !String.eqb_eq. tauto.
Qed.

Lemma matchesNoNode_source exs qs bs ft b :
  matchesNoNode (binding_source b) (nodes (resolve exs qs bs ft)) ->
  find (sourceMatch b) (nodes (resolve exs qs bs ft)) = None.
Proof.
  intros H. apply find_none_iff. intros n Hn.
  rewrite (sourceMatch_idOrName _ _ _ _ _ _ Hn). apply idOrName_false; auto.
Qed.

Lemma matchesNoNode_target exs qs bs ft b :
  matchesNoNode (binding_destination b) (nodes (resolve exs qs bs ft)) ->
  find (targetMatch b) (nodes (resolve exs qs bs ft)) = None.
Proof.
  intros H. apply find_none_iff. intros n Hn.
  rewrite (targetMatch_idOrName _ _ _ _ _ _ Hn). apply idOrName_false; auto.
Qed.

(** C6. [resolve] is a total function with no error result.  When the source
    or the destination of a binding matches no node (no id and no display
    name; the underlying record's name is the display name), the binding contributes
    no edge: the node list is the one obtained without the binding (it does
    not depend on the bindings at all), and the edge list is exactly the one
    obtained without the binding, so the edges of the other bindings are
    untouched. *)
Theorem unresolved_binding_dropped exs qs ft bs1 b bs2 :
  matchesNoNode (binding_source b) (nodes (resolve exs qs (bs1 ++ b :: bs2) ft))
  \/ matchesNoNode (binding_destination b) (nodes (resolve exs qs (bs1 ++ b :: bs2) ft)) ->
  edgeOf (nodes (resolve exs qs (bs1 ++ b :: bs2) ft)) b = []
  /\ nodes (resolve exs qs (bs1 ++ b :: bs2) ft) = nodes (resolve exs qs (bs1 ++ bs2) ft)
  /\ edges (resolve exs qs (bs1 ++ b :: bs2) ft) = edges (resolve exs qs (bs1 ++ bs2) ft).
Proof.
  intros H.
  assert (E : edgeOf (nodes (resolve exs qs (bs1 ++ b :: bs2) ft)) b = []).
  { unfold edgeOf, pushEdge. destruct H as [H|H].
    - now rewrite (matchesNoNode_source _ _ _ _ _ H).
    - rewrite (matchesNoNode_target _ _ _ _ _ H).
      now destruct (find (sourceMatch b) _). }
  split; [exact E|]. split; [now rewrite !resolve_nodes|].
  rewrite !resolve_edges, !resolve_nodes in *.
  rewrite !flat_map_app. simpl. now rewrite E.
Qed.

Lemma unresolved_binding_dropped_witness :
  edges (resolve [ordersExchange] [ordersQueue]
                 ([ordersBinding] ++ danglingBinding :: [ordersBinding]) all)
  = edges (resolve [ordersExchange] [ordersQueue]
                 ([ordersBinding] ++ [ordersBinding]) all).
Proof.
  apply (unresolved_binding_dropped [ordersExchange] [ordersQueue] all
           [ordersBinding] danglingBinding [ordersBinding]).
  left. intros n Hn. simpl in Hn.
  destruct Hn as [<-|[<-|[]]]; simpl; repeat split; discriminate.
Defined.

(** ** Order of the node list *)

Lemma find_in_prefix {A : Type} (f : A -> bool) (l1 l2 : list A) (x : A) :
  In x l1 -> f x = true ->
  exists s, find f (l1 ++ l2) = Some s /\ In s l1.
Proof.
  intros Hx Fx. rewrite find_append.
  destruct (find f l1) as [s|] eqn:E.
  - exists s. split; [reflexivity|]. now apply find_some in E.
  - rewrite (find_none _ _ E x Hx) in Fx. discriminate.
Qed.

Lemma find_skips_prefix {A : Type} (f : A -> bool) (l1 l2 : list A) (s : A) :
  (forall x, In x l1 -> f x = false) ->
  find f (l1 ++ l2) = Some s -> In s l2.
Proof.
  intros H. rewrite find_append.
  rewrite (proj2 (find_none_iff f l1) H). intros E. now apply find_some in E.
Qed.

Lemma find_skips_suffix {A : Type} (f : A -> bool) (l1 l2 : list A) (s : A) :
  (forall x, In x l2 -> f x = false) ->
  find f (l1 ++ l2) = Some s -> In s l1.
Proof.
  intros H. rewrite find_append.
  destruct (find f l1) as [s'|] eqn:E.
  - intros [= <-]. now apply find_some in E.
  - rewrite (proj2 (find_none_iff f l2) H). discriminate.
Qed.

Lemma exchangeNodes_type ft exs :
  Forall (fun n => node_type n = exchange) (exchangeNodes ft exs).
Proof.
  apply Forall_forall. intros n H.
  now apply in_exchangeNodes in H as (_ & e & _ & ? & _).
Qed.

Lemma queueNodes_type ft qs :
  Forall (fun n => node_type n = queue) (queueNodes ft qs).
Proof.
  apply Forall_forall. intros n H.
  now apply in_queueNodes in H as (_ & q & _ & ? & _).
Qed.

Lemma exchange_node_in_prefix exs qs bs ft x :
  In x (nodes (resolve exs qs bs ft)) -> node_type x = exchange ->
  In x (exchangeNodes ft exs).
Proof.
  intros H T. apply in_resolve_nodes in H as [H|H]; [exact H|].
  apply in_queueNodes in H as (_ & q & _ & T' & _). congruence.
Qed.

Lemma emitted_edge exs qs bs ft b s t :
  In b bs ->
  find (sourceMatch b) (nodes (resolve exs qs bs ft)) = Some s ->
  find (targetMatch b) (nodes (resolve exs qs bs ft)) = Some t ->
  In (mkEdge (binding_id b) (node_id s) (node_id t) (binding_routingKey b))
     (edges (resolve exs qs bs ft)).
Proof.
  intros Hb Hs Ht. rewrite resolve_edges. apply in_flat_map.
  exists b. split; [exact Hb|]. apply in_edgeOf. exists s, t. auto.
Qed.

Lemma exchange_wins (f : Node -> bool) exs qs bs ft ref x :
  (forall n, In n (nodes (resolve exs qs bs ft)) -> f n = idOrName ref n) ->
  In x (nodes (resolve exs qs bs ft)) -> node_type x = exchange ->
  node_id x = ref \/ node_name x = ref ->
  exists s, find f (nodes (resolve exs qs bs ft)) = Some s
            /\ In s (nodes (resolve exs qs bs ft))
            /\ node_type s = exchange
            /\ (node_id s = ref \/ node_name s = ref).
Proof.
  intros Hf Hx Tx Mx.
  assert (F : f x = true) by (rewrite (Hf x Hx); now apply idOrName_true).
  pose proof (exchange_node_in_prefix _ _ _ _ _ Hx Tx) as Px.
  destruct (find_in_prefix f _ (queueNodes ft qs) x Px F) as (s & E & Hs).
  rewrite <- resolve_nodes with (bs := bs) in E.
  exists s. split; [exact E|]. apply find_some in E as [Is Fs].
  split; [exact Is|]. split.
  - now apply in_exchangeNodes in Hs as (_ & e & _ & ? & _).
  - apply idOrName_true. now rewrite <- (Hf s Is).
Qed.

(** C10. The node list is the exchange nodes followed by the queue nodes.
    Hence, when the source of a binding equals the id or the display name of
    an exchange node and of a queue node, the lookup returns an exchange node
    that matches the source, and the edge emitted for the binding (when its
    destination resolves too) leaves that exchange node. The same holds for
    the destination: the lookup returns a matching exchange node, and the
    edge emitted for the binding ends at it. *)
Theorem exchanges_precede_queues exs qs bs ft :
  (exists xs ys,
      nodes (resolve exs qs bs ft) = xs ++ ys
      /\ Forall (fun n => node_type n = exchange) xs
      /\ Forall (fun n => node_type n = queue) ys)
  /\ (forall b x y,
        In b bs ->
        In x (nodes (resolve exs qs bs ft)) -> node_type x = exchange ->
        In y (nodes (resolve exs qs bs ft)) -> node_type y = queue ->
        node_id x = binding_source b \/ node_name x = binding_source b ->
        node_id y = binding_source b \/ node_name y = binding_source b ->
        exists s, find (sourceMatch b) (nodes (resolve exs qs bs ft)) = Some s
                  /\ In s (nodes (resolve exs qs bs ft))
                  /\ node_type s = exchange
                  /\ (node_id s = binding_source b \/ node_name s = binding_source b)
                  /\ forall t,
                       find (targetMatch b) (nodes (resolve exs qs bs ft)) = Some t ->
                       In (mkEdge (binding_id b) (node_id s) (node_id t)
                                  (binding_routingKey b))
                          (edges (resolve exs qs bs ft)))
  /\ (forall b x y,
        In b bs ->
        In x (nodes (resolve exs qs bs ft)) -> node_type x = exchange ->
        In y (nodes (resolve exs qs bs ft)) -> node_type y = queue ->
        node_id x = binding_destination b \/ node_name x = binding_destination b ->
        node_id y = binding_destination b \/ node_name y = binding_destination b ->
        exists t, find (targetMatch b) (nodes (resolve exs qs bs ft)) = Some t
                  /\ In t (nodes (resolve exs qs bs ft))
                  /\ node_type t = exchange
                  /\ (node_id t = binding_destination b
                      \/ node_name t = binding_destination b)
                  /\ forall s,
                       find (sourceMatch b) (nodes (resolve exs qs bs ft)) = Some s ->
                       In (mkEdge (binding_id b) (node_id s) (node_id t)
                                  (binding_routingKey b))
                          (edges (resolve exs qs bs ft))).
Proof.
  split; [|split].
  - exists (exchangeNodes ft exs), (queueNodes ft qs).
    auto using resolve_nodes, exchangeNodes_type, queueNodes_type.
  - intros b x y Hb Hx Tx _ _ Mx _.
    destruct (exchange_wins (sourceMatch b) exs qs bs ft (binding_source b) x)
      as (s & E & Is & Ts & Ms); auto.
    { intros n Hn. eapply sourceMatch_idOrName; eauto. }
    exists s. repeat (split; [assumption|]).
    intros t Ht. now apply emitted_edge.
  - intros b x y Hb Hx Tx _ _ Mx _.
    destruct (exchange_wins (targetMatch b) exs qs bs ft (binding_destination b) x)
      as (t & E & It & Tt & Mt); auto.
    { intros n Hn. eapply targetMatch_idOrName; eauto. }
    exists t. repeat (split; [assumption|]).
    intros s Hs. now apply emitted_edge.
Qed.

Lemma exchanges_precede_queues_witness :
  exists t,
    find (targetMatch jobsBinding)
         (nodes (resolve [jobsExchange] [jobsQueue] [jobsBinding] all)) = Some t
    /\ In t (nodes (resolve [jobsExchange] [jobsQueue] [jobsBinding] all))
    /\ node_type t = exchange
    /\ (node_id t = "jobs" \/ node_name t = "jobs")
    /\ forall s,
         find (sourceMatch jobsBinding)
              (nodes (resolve [jobsExchange] [jobsQueue] [jobsBinding] all)) = Some s ->
         In (mkEdge "b9" (node_id s) (node_id t) "")
            (edges (resolve [jobsExchange] [jobsQueue] [jobsBinding] all)).
Proof.
  apply (proj2 (proj2 (exchanges_precede_queues
                         [jobsExchange] [jobsQueue] [jobsBinding] all))
           jobsBinding (exchangeNode jobsExchange 0) (queueNode jobsQueue 0)).
  - simpl. left. reflexivity.
  - simpl. left. reflexivity.
  - reflexivity.
  - simpl. right. left. reflexivity.
  - reflexivity.
  - right. reflexivity.
  - right. reflexivity.
Defined.

(** ** Which nodes are candidates for an endpoint *)

(** C2. The lookups are not restricted by node kind. An exchange and a queue
    that share the name "jobs" are bound to each other by name; the claim
    calls for the edge e9 -> q9, from the exchange node to the queue node.
    The code resolves the destination among all nodes, finds the exchange
    first, and emits the loop e9 -> e9: the target of the edge is an exchange
    node. Likewise, with no exchange at all, a binding whose source is the id
    of a queue yields an edge that leaves a queue node. *)
Theorem same_name_binding_loops_on_exchange :
  resolve [jobsExchange] [jobsQueue] [jobsBinding] all
  = {| nodes := [ mkNode "e9" exchange "jobs" 200 120 (DataExchange jobsExchange);
                  mkNode "q9" queue "jobs" 650 100 (DataQueue jobsQueue) ];
       edges := [ mkEdge "b9" "e9" "e9" "" ] |}
  /\ resolve [] [ordersQueue] [queueLoopBinding] all
     = {| nodes := [ mkNode "q1" queue "orders.q" 650 100 (DataQueue ordersQueue) ];
          edges := [ mkEdge "b3" "q1" "q1" "k" ] |}.
Proof. split; reflexivity. Qed.

Lemma queue_matches_nothing ft qs ref n :
  (forall q, In q qs -> queue_id q <> ref /\ queue_name q <> ref) ->
  In n (queueNodes ft qs) -> idOrName ref n = false.
Proof.
  intros H Hn. apply in_queueNodes in Hn as (_ & q & Hq & _ & Hi & Hm & _).
  apply idOrName_false. rewrite Hi, Hm. auto.
Qed.

Lemma exchange_matches_nothing ft exs ref n :
  (forall x, In x exs -> exchange_id x <> ref /\ exchange_name x <> ref) ->
  In n (exchangeNodes ft exs) -> idOrName ref n = false.
Proof.
  intros H Hn. apply in_exchangeNodes in Hn as (_ & x & Hx & _ & Hi & Hm & _).
  apply idOrName_false. rewrite Hi, Hm. auto.
Qed.

Lemma find_source_idOrName exs qs bs ft b :
  find (sourceMatch b) (nodes (resolve exs qs bs ft))
  = find (idOrName (binding_source b)) (nodes (resolve exs qs bs ft)).
Proof. apply find_agree. intros; eapply sourceMatch_idOrName; eauto. Qed.

Lemma find_target_idOrName exs qs bs ft b :
  find (targetMatch b) (nodes (resolve exs qs bs ft))
  = find (idOrName (binding_destination b)) (nodes (resolve exs qs bs ft)).
Proof. apply find_agree. intros; eapply targetMatch_idOrName; eauto. Qed.

(** When the endpoints are of the expected kinds. Every edge comes from a
    binding both of whose lookups succeeded, and carries the ids of the two
    nodes found. The source node is an exchange node provided the binding's
    source equals the id or name of no queue, and the target node is a queue
    node provided the binding's destination equals the id or name of no
    exchange. *)
Theorem edge_endpoint_types exs qs bs ft e :
  In e (edges (resolve exs qs bs ft)) ->
  exists b s t,
    In b bs
    /\ find (sourceMatch b) (nodes (resolve exs qs bs ft)) = Some s
    /\ find (targetMatch b) (nodes (resolve exs qs bs ft)) = Some t
    /\ e = mkEdge (binding_id b) (node_id s) (node_id t) (binding_routingKey b)
    /\ ((forall q, In q qs ->
           queue_id q <> binding_source b /\ queue_name q <> binding_source b) ->
        node_type s = exchange)
    /\ ((forall x, In x exs ->
           exchange_id x <> binding_destination b
           /\ exchange_name x <> binding_destination b) ->
        node_type t = queue).
Proof.
  rewrite resolve_edges. intros H.
  apply in_flat_map in H as (b & Hb & H).
  apply in_edgeOf in H as (s & t & Hs & Ht & ->).
  exists b, s, t. repeat split; auto.
  - intros HQ. rewrite find_source_idOrName, resolve_nodes in Hs.
    apply find_skips_suffix in Hs.
    + now apply in_exchangeNodes in Hs as (_ & x & _ & ? & _).
    + intros n Hn. eapply queue_matches_nothing; eauto.
  - intros HX. rewrite find_target_idOrName, resolve_nodes in Ht.
    apply find_skips_prefix in Ht.
    + now apply in_queueNodes in Ht as (_ & q & _ & ? & _).
    + intros n Hn. eapply exchange_matches_nothing; eauto.
Qed.

Lemma edge_endpoint_types_witness :
  exists b s t,
    In b [ordersBinding]
    /\ find (sourceMatch b)
            (nodes (resolve [ordersExchange] [ordersQueue] [ordersBinding] all)) = Some s
    /\ find (targetMatch b)
            (nodes (resolve [ordersExchange] [ordersQueue] [ordersBinding] all)) = Some t
    /\ mkEdge "b1" "e1" "q1" "order.created"
       = mkEdge (binding_id b) (node_id s) (node_id t) (binding_routingKey b)
    /\ ((forall q, In q [ordersQueue] ->
           queue_id q <> binding_source b /\ queue_name q <> binding_source b) ->
        node_type s = exchange)
    /\ ((forall x, In x [ordersExchange] ->
           exchange_id x <> binding_destination b
           /\ exchange_name x <> binding_destination b) ->
        node_type t = queue).
Proof.
  apply (edge_endpoint_types [ordersExchange] [ordersQueue] [ordersBinding] all
           (mkEdge "b1" "e1" "q1" "order.created")).
  simpl. left. reflexivity.
Defined.

(** ** Filtering *)

(** C3. Under the filter 'exchange' no queue node is built, and the claim
    calls for no edge at all. For the exchange and the queue that share the
    name "jobs", the binding between them still resolves its destination,
    to the exchange, and the loop e9 -> e9 is emitted under the filter. *)
Theorem exchange_filter_still_emits_edge :
  resolve [jobsExchange] [jobsQueue] [jobsBinding] only_exchange
  = {| nodes := [ mkNode "e9" exchange "jobs" 200 120 (DataExchange jobsExchange) ];
       edges := [ mkEdge "b9" "e9" "e9" "" ] |}.
Proof. reflexivity. Qed.

Lemma filter_none {A : Type} (f : A -> bool) (l : list A) :
  (forall x, In x l -> f x = false) -> filter f l = [].
Proof.
  induction l as [|a l IH]; simpl; intros H; [reflexivity|].
  rewrite (H a) by now left. apply IH. intros; apply H; now right.
Qed.

Lemma flat_map_none {A B : Type} (f : A -> list B) (l : list A) :
  (forall x, In x l -> f x = []) -> flat_map f l = [].
Proof.
  induction l as [|a l IH]; simpl; intros H; [reflexivity|].
  rewrite (H a) by now left. apply IH. intros; apply H; now right.
Qed.

(** What a filter hides. Under the filter 'exchange' the output has no queue
    node, and it has no edge provided no binding's destination equals the id
    or the name of an exchange. Under the filter 'queue' it has no exchange
    node, and no edge provided no binding's source equals the id or the name
    of a queue. *)
Theorem filter_hides_other_type exs qs bs :
  filter isQueueNode (nodes (resolve exs qs bs only_exchange)) = []
  /\ ((forall b x, In b bs -> In x exs ->
         exchange_id x <> binding_destination b
         /\ exchange_name x <> binding_destination b) ->
      edges (resolve exs qs bs only_exchange) = [])
  /\ filter isExchangeNode (nodes (resolve exs qs bs only_queue)) = []
  /\ ((forall b q, In b bs -> In q qs ->
         queue_id q <> binding_source b /\ queue_name q <> binding_source b) ->
      edges (resolve exs qs bs only_queue) = []).
Proof.
  repeat split.
  - apply filter_none. intros n H. apply in_resolve_nodes in H as [H|H].
    + apply in_exchangeNodes in H as (_ & x & _ & T & _).
      unfold isQueueNode. now rewrite T.
    + now apply in_queueNodes in H as ([] & _).
  - intros H. rewrite resolve_edges. apply flat_map_none. intros b Hb.
    unfold edgeOf, pushEdge.
    rewrite matchesNoNode_target; [now destruct (find (sourceMatch b) _)|].
    intros n Hn. apply in_resolve_nodes in Hn as [Hn|Hn].
    + apply in_exchangeNodes in Hn as (_ & x & Hx & _ & -> & -> & _). auto.
    + now apply in_queueNodes in Hn as ([] & _).
  - apply filter_none. intros n H. apply in_resolve_nodes in H as [H|H].
    + now apply in_exchangeNodes in H as ([] & _).
    + apply in_queueNodes in H as (_ & q & _ & T & _).
      unfold isExchangeNode. now rewrite T.
  - intros H. rewrite resolve_edges. apply flat_map_none. intros b Hb.
    unfold edgeOf, pushEdge.
    rewrite matchesNoNode_source; [reflexivity|].
    intros n Hn. apply in_resolve_nodes in Hn as [Hn|Hn].
    + now apply in_exchangeNodes in Hn as ([] & _).
    + apply in_queueNodes in Hn as (_ & q & Hq & _ & -> & -> & _). auto.
Qed.

Lemma filter_hides_other_type_witness :
  edges (resolve [ordersExchange] [ordersQueue] [ordersBinding] only_exchange) = []
  /\ edges (resolve [ordersExchange] [ordersQueue] [ordersBinding] only_queue) = [].
Proof.
  split.
  - apply (proj1 (proj2 (filter_hides_other_type
                           [ordersExchange] [ordersQueue] [ordersBinding]))).
    intros b x [<-|[]] [<-|[]]. simpl. split; discriminate.
  - apply (proj2 (proj2 (proj2 (filter_hides_other_type
                           [ordersExchange] [ordersQueue] [ordersBinding])))).
    intros b q [<-|[]] [<-|[]]. simpl. split; discriminate.
Defined.

(** ** Order of the match strategies *)

(** C4, refuted as stated. The reference "x" is the id of the second exchange
    node, yet the lookup returns the first one, which matches by display name
    only; resolution by priority would return the second. *)
Lemma name_match_before_id_match_counterexample :
  find (sourceMatch aliasBinding)
       (nodes (resolve aliasExchanges [ordersQueue] [aliasBinding] all))
  = Some (mkNode "e1" exchange "x" 200 120 (DataExchange (mkExchange "e1" "x" direct)))
  /\ findByPriority sourceStrategies (binding_source aliasBinding)
       (nodes (resolve aliasExchanges [ordersQueue] [aliasBinding] all))
     = Some (mkNode "x" exchange "y" 200 260 (DataExchange (mkExchange "x" "y" topic)))
  /\ edges (resolve aliasExchanges [ordersQueue] [aliasBinding] all)
     = [ mkEdge "b5" "e1" "q1" "k" ].
Proof. repeat split; reflexivity. Qed.

Lemma find_first_idOrName ref nl s :
  find (idOrName ref) nl = Some s <->
  exists l1 l2,
    nl = l1 ++ s :: l2
    /\ (node_id s = ref \/ node_name s = ref)
    /\ Forall (fun m => node_id m <> ref /\ node_name m <> ref) l1.
Proof.
  rewrite find_first. split; intros (l1 & l2 & E & M & F); exists l1, l2;
    (split; [exact E|]); (split; [now apply idOrName_true|]);
    (eapply Forall_impl; [|exact F]); intros m; apply idOrName_false.
Qed.

Lemma priority_agrees exs qs bs ft ty ref :
  (forall n, In n (nodes (resolve exs qs bs ft)) ->
             node_name n = ref -> node_id n = ref) ->
  find (idOrName ref) (nodes (resolve exs qs bs ft))
  = findByPriority [byId; byName; byRecordName ty] ref (nodes (resolve exs qs bs ft)).
Proof.
  intros H. set (nl := nodes (resolve exs qs bs ft)) in *.
  assert (E : find (idOrName ref) nl = find (byId ref) nl).
  { apply find_agree. intros n Hn. unfold idOrName, byId.
    destruct (node_name n =? ref)%string eqn:N; [|apply orb_false_r].
    apply String.eqb_eq in N. apply (H n Hn) in N.
    apply String.eqb_eq in N. now rewrite N. }
  rewrite E. simpl. destruct (find (byId ref) nl) eqn:F; [reflexivity|].
  assert (N : forall n, In n nl -> (node_name n =? ref)%string = false).
  { intros n Hn. destruct (node_name n =? ref)%string eqn:N; [|reflexivity].
    apply String.eqb_eq in N. apply (H n Hn) in N.
    apply String.eqb_eq in N. pose proof (find_none _ _ F n Hn) as F'.
    unfold byId in F'. congruence. }
  rewrite (proj2 (find_none_iff (byName ref) nl)) by exact N.
  rewrite (proj2 (find_none_iff (byRecordName ty ref) nl)); [reflexivity|].
  intros n Hn. unfold byRecordName.
  rewrite (resolve_data_name exs qs bs ft n Hn), (N n Hn). apply andb_false_r.
Qed.

(** C4, amended. Each endpoint resolves to the first node, in node-list
    order, whose id or display name equals the reference (on the resolver's
    nodes the record-name test adds nothing): no strategy has priority over
    another across nodes. The outcome coincides with resolution by priority
    (id, then display name, then record name) whenever every node whose
    display name equals the reference also has it as id. *)
Theorem endpoint_first_match exs qs bs ft b :
  (forall s,
      find (sourceMatch b) (nodes (resolve exs qs bs ft)) = Some s <->
      exists l1 l2,
        nodes (resolve exs qs bs ft) = l1 ++ s :: l2
        /\ (node_id s = binding_source b \/ node_name s = binding_source b)
        /\ Forall (fun m => node_id m <> binding_source b
                            /\ node_name m <> binding_source b) l1)
  /\ (forall t,
      find (targetMatch b) (nodes (resolve exs qs bs ft)) = Some t <->
      exists l1 l2,
        nodes (resolve exs qs bs ft) = l1 ++ t :: l2
        /\ (node_id t = binding_destination b \/ node_name t = binding_destination b)
        /\ Forall (fun m => node_id m <> binding_destination b
                            /\ node_name m <> binding_destination b) l1)
  /\ ((forall n, In n (nodes (resolve exs qs bs ft)) ->
                 node_name n = binding_source b -> node_id n = binding_source b) ->
      find (sourceMatch b) (nodes (resolve exs qs bs ft))
      = findByPriority sourceStrategies (binding_source b)
                       (nodes (resolve exs qs bs ft)))
  /\ ((forall n, In n (nodes (resolve exs qs bs ft)) ->
                 node_name n = binding_destination b ->
                 node_id n = binding_destination b) ->
      find (targetMatch b) (nodes (resolve exs qs bs ft))
      = findByPriority targetStrategies (binding_destination b)
                       (nodes (resolve exs qs bs ft))).
Proof.
  split; [|split; [|split]].
  - intros s. rewrite find_source_idOrName. apply find_first_idOrName.
  - intros t. rewrite find_target_idOrName. apply find_first_idOrName.
  - intros H. rewrite find_source_idOrName. now apply priority_agrees.
  - intros H. rewrite find_target_idOrName. now apply priority_agrees.
Qed.

Lemma endpoint_first_match_witness :
  find (sourceMatch idBinding)
       (nodes (resolve [ordersExchange] [ordersQueue] [idBinding] all))
  = findByPriority sourceStrategies (binding_source idBinding)
       (nodes (resolve [ordersExchange] [ordersQueue] [idBinding] all)).
Proof.
  apply (proj1 (proj2 (proj2 (endpoint_first_match
                                [ordersExchange] [ordersQueue] [idBinding] all
                                idBinding)))).
  intros n Hn. simpl in Hn. destruct Hn as [<-|[<-|[]]]; simpl; discriminate.
Defined.

(** * Properties of the view state *)

(** ** Zoom *)

Lemma zoomOrbit_bounds :
  Forall (fun z => (0.5 <=? z)%float = true /\ (z <=? 2)%float = true) zoomOrbit.
Proof. unfold zoomOrbit. repeat constructor. Qed.

Ltac pick_member := repeat first [left; reflexivity | right].

Lemma zoomOrbit_closed z :
  In z zoomOrbit ->
  In (Math_min (z + 0.2) 2) zoomOrbit /\ In (Math_max (z - 0.2) 0.5) zoomOrbit.
Proof.
  unfold zoomOrbit at 1. simpl. intros H.
  repeat (destruct H as [<-|H]; [split; vm_compute; pick_member|]).
  destruct H.
Qed.

Lemma zoomOrbit_initial : In (zoom initialView) zoomOrbit.
Proof. vm_compute. pick_member. Qed.

Lemma step_zoom_orbit s a :
  In (zoom s) zoomOrbit -> In (zoom (step s a)) zoomOrbit.
Proof.
  intros H. destruct a; simpl; try exact H.
  - now apply zoomOrbit_closed.
  - now apply zoomOrbit_closed.
  - apply zoomOrbit_initial.
  - unfold handleMouseMove. now destruct (isDragging s).
Qed.

Lemma run_zoom_orbit acts s :
  In (zoom s) zoomOrbit -> In (zoom (run acts s)) zoomOrbit.
Proof.
  revert s. induction acts as [|a acts IH]; intros s H; simpl; [exact H|].
  apply IH. now apply step_zoom_orbit.
Qed.

(** Whatever the user does, [zoom] stays between 0.5 and 2. *)
Lemma zoom_invariant acts :
  (0.5 <=? zoom (run acts initialView))%float = true
  /\ (zoom (run acts initialView) <=? 2)%float = true.
Proof.
  pose proof (run_zoom_orbit acts initialView zoomOrbit_initial) as H.
  exact (proj1 (Forall_forall _ _) zoomOrbit_bounds _ H).
Qed.

(** C7. From the default view state, after any finite sequence of zoom-in,
    zoom-out and reset actions, [zoom] lies in [0.5, 2.0]; zoom-in sets it to
    min(zoom + 0.2, 2.0) and zoom-out to max(zoom - 0.2, 0.5), in the double
    arithmetic of the source. *)
Theorem zoom_stays_in_range :
  (forall acts : list ZoomAction,
      (0.5 <=? zoom (run (map zoomAction acts) initialView))%float = true
      /\ (zoom (run (map zoomAction acts) initialView) <=? 2)%float = true)
  /\ zoom initialView = 1%float
  /\ (forall s, zoom (handleZoomIn s) = Math_min (zoom s + 0.2) 2)
  /\ (forall s, zoom (handleZoomOut s) = Math_max (zoom s - 0.2) 0.5).
Proof.
  split; [|repeat split].
  intros acts. apply zoom_invariant.
Qed.

(** ** Selection *)

(** C8, refuted as stated. Once "q1" is selected, two further clicks on it
    leave it selected: the second of them re-selects what the first
    cleared. *)
Lemma select_twice_counterexample :
  selectedNode (selectNode "q1" initialView) = Some "q1"
  /\ selectedNode (selectNode "q1" (selectNode "q1" (selectNode "q1" initialView)))
     = Some "q1".
Proof. split; reflexivity. Qed.

Lemma option_string_eqb_true a id : option_string_eqb a id = true <-> a = Some id.
Proof.
  destruct a as [x|]; simpl.
  - rewrite String.eqb_eq. split; congruence.
  - split; discriminate.
Qed.

Lemma selectNode_selected id s :
  selectedNode s = Some id -> selectedNode (selectNode id s) = None.
Proof.
  intros H. unfold selectNode; simpl.
  now rewrite (proj2 (option_string_eqb_true _ _) H).
Qed.

Lemma selectNode_other id s :
  selectedNode s <> Some id -> selectedNode (selectNode id s) = Some id.
Proof.
  intros H. unfold selectNode; simpl.
  destruct (option_string_eqb (selectedNode s) id) eqn:E; [|reflexivity].
  now apply option_string_eqb_true in E.
Qed.

(** C8, amended. Selecting the selected node clears the selection and
    selecting any other node selects it. Two calls in a row with the same id
    restore the selection status of that id: they end with no selection when
    the id was not selected before, and with the id selected when it was. *)
Theorem selectNode_toggles id s :
  (selectedNode s = Some id -> selectedNode (selectNode id s) = None)
  /\ (selectedNode s <> Some id -> selectedNode (selectNode id s) = Some id)
  /\ (selectedNode s <> Some id ->
      selectedNode (selectNode id (selectNode id s)) = None)
  /\ (selectedNode s = Some id ->
      selectedNode (selectNode id (selectNode id s)) = Some id).
Proof.
  repeat split; intros H.
  - now apply selectNode_selected.
  - now apply selectNode_other.
  - apply selectNode_selected. now apply selectNode_other.
  - apply selectNode_other. rewrite (selectNode_selected _ _ H). discriminate.
Qed.

Lemma selectNode_toggles_witness :
  selectedNode (selectNode "q1" (selectNode "q1" initialView)) = None.
Proof.
  apply (proj1 (proj2 (proj2 (selectNode_toggles "q1" initialView)))).
  simpl. discriminate.
Defined.

(** ** Filter *)

(** C9. Setting the filter replaces the [filterType] cell and nothing else:
    zoom, pan, label visibility, the drag cells and the selection keep their
    values, whether or not the selected id is still among the nodes derived
    under the new filter. *)
Theorem setFilterType_frame t s :
  filterType (setFilterType t s) = t
  /\ zoom (setFilterType t s) = zoom s
  /\ pan (setFilterType t s) = pan s
  /\ showLabels (setFilterType t s) = showLabels s
  /\ selectedNode (setFilterType t s) = selectedNode s
  /\ isDragging (setFilterType t s) = isDragging s
  /\ dragStart (setFilterType t s) = dragStart s.
Proof. repeat split. Qed.

(** The selection of a queue survives the filter that hides every queue. *)
Example selection_survives_filter :
  selectedNode (setFilterType only_exchange (selectNode "q1" initialView)) = Some "q1"
  /\ find (fun n => (node_id n =? "q1")%string)
          (nodes (resolve [ordersExchange] [ordersQueue] [ordersBinding]
                    (filterType (setFilterType only_exchange
                                   (selectNode "q1" initialView)))))
     = None.
Proof. split; reflexivity. Qed.

(** * Further properties of the resolver *)

Lemma mapFrom_length {A B : Type} (f : A -> Z -> B) (l : list A) (i : Z) :
  List.length (mapFrom f l i) = List.length l.
Proof. revert i; induction l as [|a l IH]; intros i; simpl; auto. Qed.

Lemma mapFrom_nth_error {A B : Type} (f : A -> Z -> B) (l : list A) (i : Z) (k : nat) (x : A) :
  nth_error l k = Some x ->
  nth_error (mapFrom f l i) k = Some (f x (i + Z.of_nat k)).
Proof.
  revert i k; induction l as [|a l IH]; intros i k; destruct k; simpl; try discriminate.
  - intros [= ->]. now rewrite Z.add_0_r.
  - intros H. rewrite (IH _ _ H). f_equal. f_equal. lia.
Qed.

(** The layout. Unless exchanges are filtered out, the i-th exchange of the
    input is the i-th node and sits at (200, 120 + 140 i). Unless queues are
    filtered out, the j-th queue is the j-th node after the exchange nodes
    and sits at (650, 100 + 110 j), wherever the exchanges are. The node list
    holds one node per entity that passes the filter. *)
Theorem node_layout exs qs bs ft :
  (ft <> only_queue -> forall i ex,
      nth_error exs i = Some ex ->
      nth_error (nodes (resolve exs qs bs ft)) i
      = Some (mkNode (exchange_id ex) exchange (exchange_name ex)
                     200 (120 + Z.of_nat i * 140) (DataExchange ex)))
  /\ (ft <> only_exchange -> forall j q,
      nth_error qs j = Some q ->
      nth_error (nodes (resolve exs qs bs ft))
                (List.length (exchangeNodes ft exs) + j)
      = Some (mkNode (queue_id q) queue (queue_name q)
                     650 (100 + Z.of_nat j * 110) (DataQueue q)))
  /\ List.length (exchangeNodes ft exs)
     = match ft with only_queue => O | _ => List.length exs end
  /\ List.length (nodes (resolve exs qs bs ft))
     = (match ft with only_queue => O | _ => List.length exs end
        + match ft with only_exchange => O | _ => List.length qs end)%nat.
Proof.
  rewrite resolve_nodes. repeat split.
  - intros Hft i ex Hi. rewrite nth_error_app1.
    + destruct ft; try congruence; simpl;
        now rewrite (mapFrom_nth_error exchangeNode exs 0 i ex Hi).
    + apply nth_error_Some. 
      destruct ft; try congruence; simpl;
        now rewrite (mapFrom_nth_error exchangeNode exs 0 i ex Hi).
  - intros Hft j q Hj. rewrite nth_error_app2 by lia.
    replace (_ + j - _)%nat with j by lia.
    destruct ft; try congruence; simpl;
      now rewrite (mapFrom_nth_error queueNode qs 0 j q Hj).
  - destruct ft; simpl; auto using mapFrom_length.
  - rewrite length_app. destruct ft; simpl; rewrite ?mapFrom_length; lia.
Qed.

Lemma node_layout_witness :
  nth_error (nodes (resolve [ordersExchange; jobsExchange] [ordersQueue; jobsQueue]
                            [] only_queue)) (0 + 1)
  = Some (mkNode "q9" queue "jobs" 650 210 (DataQueue jobsQueue)).
Proof.
  apply (proj1 (proj2 (node_layout [ordersExchange; jobsExchange]
                                   [ordersQueue; jobsQueue] [] only_queue))
           ltac:(discriminate) 1%nat jobsQueue).
  reflexivity.
Defined.

(** Filtering removes nodes and never moves one: a node shown under some
    filter is, coordinates included, a node of the unfiltered graph, whatever
    the bindings are. *)
Theorem filter_keeps_positions exs qs bs bs' ft n :
  In n (nodes (resolve exs qs bs ft)) ->
  In n (nodes (resolve exs qs bs' all)).
Proof.
  rewrite !resolve_nodes. intros H. apply in_app_or in H as [H|H]; apply in_or_app.
  - left. destruct ft; simpl in *; tauto.
  - right. destruct ft; simpl in *; tauto.
Qed.

Lemma filter_keeps_positions_witness :
  In (mkNode "q1" queue "orders.q" 650 100 (DataQueue ordersQueue))
     (nodes (resolve [ordersExchange] [ordersQueue] [ordersBinding] all)).
Proof.
  apply (filter_keeps_positions [ordersExchange] [ordersQueue] [] [ordersBinding]
           only_queue).
  simpl. left. reflexivity.
Defined.

Lemma edgeOf_fields nl b :
  map (fun e => (edge_id e, edge_routingKey e)) (edgeOf nl b)
  = if resolves nl b then [(binding_id b, binding_routingKey b)] else [].
Proof.
  unfold edgeOf, pushEdge, resolves, push.
  now destruct (find (sourceMatch b) nl), (find (targetMatch b) nl).
Qed.

Lemma flat_map_edge_fields nl bs :
  map (fun e => (edge_id e, edge_routingKey e)) (flat_map (edgeOf nl) bs)
  = map (fun b => (binding_id b, binding_routingKey b)) (filter (resolves nl) bs).
Proof.
  induction bs as [|b bs IH]; simpl; [reflexivity|].
  rewrite map_app, IH, edgeOf_fields. now destruct (resolves nl b).
Qed.

(** One edge per binding both of whose endpoints resolve, in binding order,
    carrying that binding's id and routing key; so there are never more edges
    than bindings. *)
Theorem edges_follow_bindings exs qs bs ft :
  map (fun e => (edge_id e, edge_routingKey e)) (edges (resolve exs qs bs ft))
  = map (fun b => (binding_id b, binding_routingKey b))
        (filter (resolves (nodes (resolve exs qs bs ft))) bs)
  /\ (List.length (edges (resolve exs qs bs ft)) <= List.length bs)%nat.
Proof.
  assert (E := flat_map_edge_fields (nodes (resolve exs qs bs ft)) bs).
  rewrite <- resolve_edges in E. split; [exact E|].
  apply (f_equal (@List.length _)) in E. rewrite !length_map in E. rewrite E.
  apply filter_length_le.
Qed.

(** Showing exchanges only never invents an edge: every edge drawn under the
    filter 'exchange' is an edge of the unfiltered graph. *)
Theorem exchange_filter_edges_subset exs qs bs e :
  In e (edges (resolve exs qs bs only_exchange)) ->
  In e (edges (resolve exs qs bs all)).
Proof.
  rewrite !resolve_edges, !resolve_nodes. simpl. rewrite app_nil_r.
  intros H. apply in_flat_map in H as (b & Hb & H).
  apply in_flat_map. exists b. split; [exact Hb|].
  apply in_edgeOf in H as (s & t & Hs & Ht & ->).
  apply in_edgeOf. exists s, t. rewrite !find_append, Hs, Ht. auto.
Qed.

Lemma exchange_filter_edges_subset_witness :
  In (mkEdge "b4" "e1" "e1" "k")
     (edges (resolve [ordersExchange] [ordersQueue] [exchangeLoopBinding] all)).
Proof.
  apply (exchange_filter_edges_subset [ordersExchange] [ordersQueue]
           [exchangeLoopBinding]).
  simpl. left. reflexivity.
Defined.

(** * Properties of the render projection *)

(** ** Where edges are drawn *)

Lemma in_resolve_edges exs qs bs ft e :
  In e (edges (resolve exs qs bs ft)) ->
  exists b s t,
    In b bs
    /\ find (sourceMatch b) (nodes (resolve exs qs bs ft)) = Some s
    /\ find (targetMatch b) (nodes (resolve exs qs bs ft)) = Some t
    /\ e = mkEdge (binding_id b) (node_id s) (node_id t) (binding_routingKey b).
Proof.
  rewrite resolve_edges. intros H. apply in_flat_map in H as (b & Hb & H).
  apply in_edgeOf in H as (s & t & Hs & Ht & ->). exists b, s, t. auto.
Qed.

Lemma node_x_column exs qs bs ft n :
  In n (nodes (resolve exs qs bs ft)) -> node_x n = 200 \/ node_x n = 650.
Proof.
  intros H. apply in_resolve_nodes in H as [H|H].
  - apply in_exchangeNodes in H as (_ & x & _ & _ & _ & _ & _ & ->). now left.
  - apply in_queueNodes in H as (_ & q & _ & _ & _ & _ & _ & ->). now right.
Qed.

Lemma getNodePosition_present nl n :
  In n nl ->
  exists m, In m nl /\ node_id m = node_id n
            /\ getNodePosition nl (node_id n) = (node_x m, node_y m).
Proof.
  intros H. unfold getNodePosition.
  destruct (find (fun k => (node_id k =? node_id n)%string) nl) as [m|] eqn:E.
  - apply find_some in E as [Hm E]. apply String.eqb_eq in E. exists m. auto.
  - apply (find_none _ _ E) in H. simpl in H. now rewrite String.eqb_refl in H.
Qed.

(** Both ends of every edge are drawn at a node: [getNodePosition] finds, for
    the source and for the target, a node of the list with that id and
    returns its coordinates, so the fallback to the origin is never taken
    and each end lies in one of the two columns. *)
Theorem edge_ends_at_nodes exs qs bs ft e :
  In e (edges (resolve exs qs bs ft)) ->
  (exists n, In n (nodes (resolve exs qs bs ft)) /\ node_id n = edge_source e
             /\ getNodePosition (nodes (resolve exs qs bs ft)) (edge_source e)
                = (node_x n, node_y n)
             /\ (node_x n = 200 \/ node_x n = 650))
  /\ (exists n, In n (nodes (resolve exs qs bs ft)) /\ node_id n = edge_target e
             /\ getNodePosition (nodes (resolve exs qs bs ft)) (edge_target e)
                = (node_x n, node_y n)
             /\ (node_x n = 200 \/ node_x n = 650)).
Proof.
  intros H. apply in_resolve_edges in H as (b & s & t & _ & Hs & Ht & ->). simpl.
  apply find_some in Hs as [Hs _]. apply find_some in Ht as [Ht _].
  split.
  - destruct (getNodePosition_present _ _ Hs) as (m & Hm & Hi & Hp).
    exists m. eauto using node_x_column.
  - destruct (getNodePosition_present _ _ Ht) as (m & Hm & Hi & Hp).
    exists m. eauto using node_x_column.
Qed.

Lemma edge_ends_at_nodes_witness :
  exists n, In n (nodes (resolve [ordersExchange] [ordersQueue] [ordersBinding] all))
            /\ node_id n = "q1"
            /\ getNodePosition
                 (nodes (resolve [ordersExchange] [ordersQueue] [ordersBinding] all)) "q1"
               = (node_x n, node_y n)
            /\ (node_x n = 200 \/ node_x n = 650).
Proof.
  refine (proj2 (edge_ends_at_nodes [ordersExchange] [ordersQueue] [ordersBinding] all
                   (mkEdge "b1" "e1" "q1" "order.created") _)).
  simpl. left. reflexivity.
Defined.

Lemma find_unique_id nl s :
  NoDup (map node_id nl) -> In s nl ->
  find (fun n => (node_id n =? node_id s)%string) nl = Some s.
Proof.
  induction nl as [|a nl IH]; simpl; [tauto|].
  intros ND [->|H].
  - now rewrite String.eqb_refl.
  - inversion ND as [|? ? Ha ND']; subst.
    destruct (node_id a =? node_id s)%string eqn:E; [|auto].
    apply String.eqb_eq in E. exfalso. apply Ha. rewrite E.
    now apply in_map.
Qed.

Lemma mapFrom_exchange_ids exs i :
  map node_id (mapFrom exchangeNode exs i) = map exchange_id exs.
Proof. revert i; induction exs as [|x exs IH]; intros i; simpl; f_equal; auto. Qed.

Lemma mapFrom_queue_ids qs i :
  map node_id (mapFrom queueNode qs i) = map queue_id qs.
Proof. revert i; induction qs as [|q qs IH]; intros i; simpl; f_equal; auto. Qed.

Lemma resolve_all_ids exs qs bs :
  map node_id (nodes (resolve exs qs bs all)) = map exchange_id exs ++ map queue_id qs.
Proof.
  rewrite resolve_nodes, map_app. simpl.
  now rewrite mapFrom_exchange_ids, mapFrom_queue_ids.
Qed.

(** The curve of an exchange-to-queue binding. With ids unique over
    exchanges and queues, a binding whose source names no queue and whose
    destination names no exchange is drawn from (270, y of its exchange) to
    (575, y of its queue), with both control points at x = 422.5. *)
Theorem exchange_to_queue_curve exs qs bs v b s t :
  NoDup (map exchange_id exs ++ map queue_id qs) ->
  (forall q, In q qs ->
     queue_id q <> binding_source b /\ queue_name q <> binding_source b) ->
  (forall x, In x exs ->
     exchange_id x <> binding_destination b
     /\ exchange_name x <> binding_destination b) ->
  find (sourceMatch b) (nodes (resolve exs qs bs all)) = Some s ->
  find (targetMatch b) (nodes (resolve exs qs bs all)) = Some t ->
  edge_path (renderEdge (nodes (resolve exs qs bs all)) v
               (mkEdge (binding_id b) (node_id s) (node_id t) (binding_routingKey b)))
  = mkCurvePath 270 (node_y s) (inject_Z 845 / 2) (node_y s)
                (inject_Z 845 / 2) (node_y t) 575 (node_y t).
Proof.
  intros ND HQ HX Hs Ht.
  rewrite <- resolve_all_ids with (bs := bs) in ND.
  assert (Ts : node_x s = 200).
  { rewrite find_source_idOrName, resolve_nodes in Hs.
    apply find_skips_suffix in Hs.
    - now apply in_exchangeNodes in Hs as (_ & x & _ & _ & _ & _ & _ & ?).
    - intros n Hn. eapply queue_matches_nothing; eauto. }
  assert (Tt : node_x t = 650).
  { rewrite find_target_idOrName, resolve_nodes in Ht.
    apply find_skips_prefix in Ht.
    - now apply in_queueNodes in Ht as (_ & q & _ & _ & _ & _ & _ & ?).
    - intros n Hn. eapply exchange_matches_nothing; eauto. }
  apply find_some in Hs as [Hs _]. apply find_some in Ht as [Ht _].
  unfold renderEdge, getNodePosition. cbn [edge_source edge_target].
  rewrite (find_unique_id _ _ ND Hs), (find_unique_id _ _ ND Ht).
  cbn [fst snd edge_path]. rewrite Ts, Tt. reflexivity.
Qed.

Lemma exchange_to_queue_curve_witness :
  edge_path (renderEdge
               (nodes (resolve [ordersExchange] [ordersQueue] [ordersBinding] all))
               initialView
               (mkEdge "b1" "e1" "q1" "order.created"))
  = mkCurvePath 270 120 (inject_Z 845 / 2) 120 (inject_Z 845 / 2) 100 575 100.
Proof.
  apply (exchange_to_queue_curve [ordersExchange] [ordersQueue] [ordersBinding]
           initialView ordersBinding
           (exchangeNode ordersExchange 0) (queueNode ordersQueue 0)).
  - repeat constructor; simpl; intuition discriminate.
  - intros q [<-|[]]. simpl. split; discriminate.
  - intros x [<-|[]]. simpl. split; discriminate.
  - reflexivity.
  - reflexivity.
Defined.

(** ** Selection styling *)

Lemma option_string_eqb_Some id x :
  option_string_eqb (Some id) x = (id =? x)%string.
Proof. reflexivity. Qed.

(** Clicking a node that is not selected highlights exactly the edges that
    touch its id (glow, width 3, solid line) and leaves the others dashed at
    width 2; clicking it again removes every highlight. *)
Theorem click_highlights_incident_edges nl id s e :
  selectedNode s <> Some id ->
  edge_glow (renderEdge nl (selectNode id s) e)
  = ((id =? edge_source e) || (id =? edge_target e))%string
  /\ edge_strokeWidth (renderEdge nl (selectNode id s) e)
     = (if ((id =? edge_source e) || (id =? edge_target e))%string then 3 else 2)
  /\ edge_strokeDasharray (renderEdge nl (selectNode id s) e)
     = (if ((id =? edge_source e) || (id =? edge_target e))%string then "" else "5,5")
  /\ edge_glow (renderEdge nl (selectNode id (selectNode id s)) e) = false
  /\ edge_strokeWidth (renderEdge nl (selectNode id (selectNode id s)) e) = 2
  /\ edge_strokeDasharray (renderEdge nl (selectNode id (selectNode id s)) e) = "5,5".
Proof.
  intros H. unfold renderEdge. cbn [edge_glow edge_strokeWidth edge_strokeDasharray].
  rewrite (selectNode_selected id (selectNode id s) (selectNode_other id s H)).
  rewrite (selectNode_other id s H), !option_string_eqb_Some. simpl. auto 10.
Qed.

Lemma click_highlights_incident_edges_witness :
  edge_glow (renderEdge [] (selectNode "q1" initialView)
               (mkEdge "b1" "e1" "q1" "order.created")) = true.
Proof.
  refine (proj1 (click_highlights_incident_edges [] "q1" initialView
                   (mkEdge "b1" "e1" "q1" "order.created") _)).
  simpl. discriminate.
Defined.

(** ** Captions *)






(** Nine accented letters are nine code units, though eighteen bytes, and are
    shown in full under the limit of twelve; a character beyond the basic
    plane counts for two units. *)
Example truncateLabel_counts_code_units :
  List.length (codeUnits "ééééééééé") = 9%nat
  /\ truncateLabel 12 (codeUnits "ééééééééé") = codeUnits "ééééééééé"
  /\ codeUnits "é" = [233%N]
  /\ codeUnits "😀" = [55357%N; 56832%N].
Proof. repeat split. Qed.

Lemma renderNodes_forall v nl gs :
  renderNodes v nl = Some gs ->
  Forall2 (fun n g => renderNode v n = Some g) nl gs.
Proof.
  revert gs; induction nl as [|n nl IH]; simpl; intros gs.
  - intros [= <-]. constructor.
  - destruct (renderNode v n) as [g|] eqn:E; [|discriminate].
    destruct (renderNodes v nl) as [gs'|]; [|discriminate].
    intros [= <-]. constructor; auto.
Qed.

(** With labels switched off, no edge carries a routing-key label and no
    exchange glyph carries a caption. Queue glyphs do not depend on the
    switch at all: their name is drawn either way. And with labels on, an
    edge whose routing key is empty still has no label. *)
Theorem labels_switch g v sc :
  renderScene g v = Some sc ->
  (showLabels v = false ->
   Forall (fun ev => edge_label ev = None) (scene_edges sc)
   /\ Forall captionless (scene_nodes sc))
  /\ (forall n, renderQueueNode (toggleLabels v) n = renderQueueNode v n)
  /\ (forall e, edge_routingKey e = "" ->
                edge_label (renderEdge (nodes g) v e) = None).
Proof.
  unfold renderScene. destruct (renderNodes v (nodes g)) as [gs|] eqn:E; [|discriminate].
  intros [= <-]. simpl. repeat split.
  - apply Forall_forall. intros ev Hev. apply in_map_iff in Hev as (e & <- & _).
    unfold renderEdge; simpl. now rewrite H.
  - apply renderNodes_forall in E. induction E as [|n gv nl gs' Hn _ IH]; constructor; auto.
    unfold renderNode, renderExchangeNode, renderQueueNode in Hn.
    destruct (node_type n), (node_data n); simpl in Hn; try discriminate;
      injection Hn as <-; simpl; auto. now rewrite H.
  - intros e He. unfold renderEdge; simpl. rewrite He. simpl.
    now rewrite andb_false_r.
Qed.

Lemma labels_switch_witness :
  Forall (fun ev => edge_label ev = None)
         (map (renderEdge (nodes (resolve [ordersExchange] [ordersQueue] [ordersBinding] all))
                 (toggleLabels initialView))
              (edges (resolve [ordersExchange] [ordersQueue] [ordersBinding] all))).
Proof.
  refine (proj1 (proj1 (labels_switch
                   (resolve [ordersExchange] [ordersQueue] [ordersBinding] all)
                   (toggleLabels initialView)
                   (mkScene _ _) _) _)).
  - reflexivity.
  - reflexivity.
Defined.

(** ** Rendering the resolver's output *)





(** The health bar of a queue glyph is green from a score of 80, yellow from
    50 to 79 and red below 50: the stroke class chosen by the thresholds comes
    out of the replacement as the matching fill class. *)
Theorem health_bar_classes v n q gv :
  node_data n = DataQueue q ->
  renderQueueNode v n = Some gv ->
  (80 <= healthScore q -> qnode_healthBar gv = "fill-green-500")
  /\ (50 <= healthScore q < 80 -> qnode_healthBar gv = "fill-yellow-500")
  /\ (healthScore q < 50 -> qnode_healthBar gv = "fill-red-500").
Proof.
  unfold renderQueueNode. intros ->. intros [= <-]. simpl. unfold healthColor.
  repeat split; intros H.
  - replace (80 <=? healthScore q) with true by (symmetry; apply Z.leb_le; lia).
    reflexivity.
  - replace (80 <=? healthScore q) with false by (symmetry; apply Z.leb_gt; lia).
    replace (50 <=? healthScore q) with true by (symmetry; apply Z.leb_le; lia).
    reflexivity.
  - replace (80 <=? healthScore q) with false by (symmetry; apply Z.leb_gt; lia).
    replace (50 <=? healthScore q) with false by (symmetry; apply Z.leb_gt; lia).
    reflexivity.
Qed.

Lemma health_bar_classes_witness :
  exists gv,
    renderQueueNode initialView (queueNode ordersQueue 0) = Some gv
    /\ qnode_healthBar gv = "fill-green-500".
Proof.
  eexists. split; [reflexivity|].
  refine (proj1 (health_bar_classes initialView (queueNode ordersQueue 0)
                   ordersQueue _ _ _) _).
  - reflexivity.
  - reflexivity.
  - simpl. lia.
Defined.

(** * Further properties of the view state *)

Lemma repeatedly_add {A : Type} (f : A -> A) (a b : nat) (x : A) :
  repeatedly (a + b) f x = repeatedly b f (repeatedly a f x).
Proof. revert x; induction a as [|a IH]; intros x; simpl; auto. Qed.

Lemma repeatedly_fixed {A : Type} (f : A -> A) (n : nat) (x : A) :
  f x = x -> repeatedly n f x = x.
Proof. intros H; induction n as [|n IH]; simpl; [reflexivity|]. now rewrite H. Qed.

Lemma zoom_repeatedly_in n s :
  zoom (repeatedly n handleZoomIn s)
  = repeatedly n (fun z => Math_min (z + 0.2) 2) (zoom s).
Proof. revert s; induction n as [|n IH]; intros s; simpl; [reflexivity|]. now rewrite IH. Qed.

Lemma zoom_repeatedly_out n s :
  zoom (repeatedly n handleZoomOut s)
  = repeatedly n (fun z => Math_max (z - 0.2) 0.5) (zoom s).
Proof. revert s; induction n as [|n IH]; intros s; simpl; [reflexivity|]. now rewrite IH. Qed.

Lemma zoomOrbit_saturates z :
  In z zoomOrbit ->
  repeatedly 8 (fun z => Math_min (z + 0.2) 2) z = 2%float
  /\ repeatedly 8 (fun z => Math_max (z - 0.2) 0.5) z = 0.5%float.
Proof.
  unfold zoomOrbit. simpl In. intros H.
  repeat (destruct H as [<-|H]; [split; vm_compute; reflexivity|]).
  destruct H.
Qed.

(** Zooming saturates. From any state the user can reach, eight zoom-in
    steps, or any larger number, leave [zoom] at exactly 2, and eight or more
    zoom-out steps leave it at exactly 0.5, rounding drift included. *)
Theorem zoom_saturates acts n :
  (8 <= n)%nat ->
  zoom (repeatedly n handleZoomIn (run acts initialView)) = 2%float
  /\ zoom (repeatedly n handleZoomOut (run acts initialView)) = 0.5%float.
Proof.
  intros H. replace n with (8 + (n - 8))%nat by lia.
  rewrite zoom_repeatedly_in, zoom_repeatedly_out, !repeatedly_add.
  destruct (zoomOrbit_saturates _ (run_zoom_orbit acts initialView zoomOrbit_initial))
    as [-> ->].
  split; apply repeatedly_fixed; reflexivity.
Qed.

Lemma zoom_saturates_witness :
  zoom (repeatedly 10 handleZoomIn (run [] initialView)) = 2%float.
Proof.
  refine (proj1 (zoom_saturates [] 10 _)). lia.
Defined.

Lemma moves_inert acts s :
  isDragging s = false -> forallb isMouseMove acts = true -> run acts s = s.
Proof.
  intros D. induction acts as [|a acts IH]; simpl; [reflexivity|].
  destruct a; simpl; try discriminate. intros H.
  unfold handleMouseMove. rewrite D. now apply IH.
Qed.

Lemma pointer_step_frame s a :
  isPointerAction a = true ->
  zoom (step s a) = zoom s
  /\ selectedNode (step s a) = selectedNode s
  /\ showLabels (step s a) = showLabels s
  /\ filterType (step s a) = filterType s.
Proof.
  destruct a; simpl; try discriminate; intros _; auto.
  unfold handleMouseMove. destruct (isDragging s); simpl; auto.
Qed.

(** Dragging only pans. Pointer actions never change zoom, selection, label
    visibility or filter; and pointer moves have an effect only during a
    drag: after the button is released, any sequence of moves leaves the
    whole view state as it is. *)
Theorem drag_only_pans s acts :
  (forallb isPointerAction acts = true ->
   zoom (run acts s) = zoom s
   /\ selectedNode (run acts s) = selectedNode s
   /\ showLabels (run acts s) = showLabels s
   /\ filterType (run acts s) = filterType s)
  /\ (forallb isMouseMove acts = true ->
      run (MouseUp :: acts) s = handleMouseUp s).
Proof.
  split.
  - unfold run. revert s. induction acts as [|a acts IH]; intros s; simpl; [auto|].
    intros H. apply andb_true_iff in H as [Ha H].
    destruct (IH (step s a) H) as (-> & -> & -> & ->).
    now apply pointer_step_frame.
  - intros H. simpl. now apply moves_inert.
Qed.

Lemma drag_only_pans_witness :
  run [MouseUp; MouseMove 10 20; MouseMove 30 40]
      (handleMouseDown 5 5 initialView)
  = handleMouseUp (handleMouseDown 5 5 initialView).
Proof.
  apply (proj2 (drag_only_pans (handleMouseDown 5 5 initialView)
                  [MouseMove 10 20; MouseMove 30 40])).
  reflexivity.
Defined.

(** * Properties of the theme editor *)

(** ** Undo history *)

Section History.
Context {T : ConfigTypes}.
Implicit Types (st : @EditorState T) (a : @EditorAction T).

Lemma addStagingChange_frame clk c st :
  theme (addStagingChange clk c st) = theme st
  /\ history (addStagingChange clk c st) = history st
  /\ historyIndex (addStagingChange clk c st) = historyIndex st.
Proof. repeat split. Qed.

Lemma updateTheme_fields clk u d st :
  theme (updateTheme clk u d st) = mergeTheme (theme st) u
  /\ history (updateTheme clk u d st)
     = firstn (historyIndex st + 1) (history st) ++ [mergeTheme (theme st) u]
  /\ historyIndex (updateTheme clk u d st)
     = List.length (firstn (historyIndex st + 1) (history st)).
Proof.
  unfold updateTheme. destruct (truthyOpt d); simpl;
    rewrite length_app; simpl; repeat split; lia.
Qed.

Lemma updateTheme_staging clk u d st :
  stagingChanges (updateTheme clk u d st)
  = if truthyOpt d
    then stagingChanges st
         ++ [mkStagingChange (String.append "change-" (Number_toString (clock_now clk)))
                             sc_config None (spread "" d) (clock_localeString clk)
                             None false]
    else stagingChanges st.
Proof. unfold updateTheme. now destruct (truthyOpt d). Qed.

Lemma handleAssetUpload_history files st :
  history (handleAssetUpload files st) = history st
  /\ historyIndex (handleAssetUpload files st) = historyIndex st.
Proof.
  unfold handleAssetUpload. revert st.
  induction files as [|fe files IH]; intros st; simpl; [auto|].
  destruct (IH (uploadOne st fe)) as [-> ->]. auto.
Qed.

Lemma content_step_history st a :
  isContentAction a = true ->
  exists st', editorStep st a = Some st'
              /\ history st' = history st /\ historyIndex st' = historyIndex st.
Proof.
  destruct a; simpl; try discriminate; intros _; eexists; split; try reflexivity.
  - unfold handlePageChange. now destruct (_ || _).
  - auto.
  - unfold handleDeletePage. now destruct (find _ _).
  - auto.
  - unfold handleAssetDelete. destruct (find _ _); [destruct confirmed|]; auto.
  - apply handleAssetUpload_history.
  - auto.
  - auto.
  - auto.
Qed.

Lemma content_run_history acts st :
  forallb isContentAction acts = true ->
  exists st', runEditor acts st = Some st'
              /\ history st' = history st /\ historyIndex st' = historyIndex st.
Proof.
  revert st. induction acts as [|a acts IH]; intros st; simpl.
  - intros _. exists st. auto.
  - intros H. apply andb_true_iff in H as [Ha H].
    destruct (content_step_history st a Ha) as (st1 & -> & H1 & H2).
    destruct (IH st1 H) as (st2 & -> & H3 & H4).
    exists st2. repeat split; congruence.
Qed.

Lemma step_keeps_index_in_range st a :
  indexInRange st ->
  exists st', editorStep st a = Some st' /\ indexInRange st'.
Proof.
  unfold indexInRange. intros H.
  destruct (isContentAction a) eqn:C.
  - destruct (content_step_history st a C) as (st' & E & Hh & Hi).
    exists st'. split; [exact E|]. now rewrite Hh, Hi.
  - destruct a; try discriminate; simpl.
    + eexists; split; [reflexivity|].
      destruct (updateTheme_fields clk updates description st) as (_ & -> & ->).
      rewrite length_app. simpl. lia.
    + unfold undo. destruct (Nat.ltb 0 (historyIndex st)) eqn:E; [|eauto].
      apply Nat.ltb_lt in E.
      destruct (nth_error (history st) (historyIndex st - 1)) as [t|] eqn:N.
      * eexists; split; [reflexivity|]. simpl. lia.
      * apply nth_error_None in N. lia.
    + unfold redo.
      destruct (Nat.ltb (historyIndex st + 1) (List.length (history st))) eqn:E; [|eauto].
      apply Nat.ltb_lt in E.
      destruct (nth_error (history st) (historyIndex st + 1)) as [t|] eqn:N.
      * eexists; split; [reflexivity|]. simpl. lia.
      * apply nth_error_None in N. lia.
Qed.

Lemma run_keeps_index_in_range acts st :
  indexInRange st ->
  exists st', runEditor acts st = Some st' /\ indexInRange st'.
Proof.
  revert st. induction acts as [|a acts IH]; intros st H; simpl; [eauto|].
  destruct (step_keeps_index_in_range st a H) as (st1 & -> & H1). auto.
Qed.

(** Undo and redo never read outside the history. Whatever the user does
    from the initial state, in any order, every handler finds the theme it
    looks up, and the index stays inside the history array. *)
Theorem history_index_in_range (defaultTheme : @ThemeConfig T) acts :
  exists st,
    runEditor acts (initialEditor defaultTheme) = Some st
    /\ (historyIndex st < List.length (history st))%nat.
Proof. apply run_keeps_index_in_range. unfold indexInRange. simpl. lia. Qed.

Lemma undo_redo_sync st :
  inSync st ->
  ((0 < historyIndex st)%nat ->
   exists st', undo st = Some st' /\ inSync st' /\ redo st' = Some st)
  /\ ((historyIndex st + 1 < List.length (history st))%nat ->
      exists st', redo st = Some st' /\ inSync st' /\ undo st' = Some st).
Proof.
  unfold inSync. destruct st as [th hs i cs]. simpl. intros S.
  assert (R : (i < List.length hs)%nat) by (apply nth_error_Some; congruence).
  split; intros H.
  - unfold undo. simpl.
    replace (Nat.ltb 0 i) with true by (symmetry; apply Nat.ltb_lt; lia).
    destruct (nth_error hs (i - 1)) as [t|] eqn:N;
      [|apply nth_error_None in N; lia].
    eexists. split; [reflexivity|]. split; [exact N|].
    unfold redo. simpl.
    replace (i - 1 + 1)%nat with i by lia.
    replace (Nat.ltb i (List.length hs)) with true by (symmetry; apply Nat.ltb_lt; lia).
    now rewrite S.
  - unfold redo. simpl.
    replace (Nat.ltb (i + 1) (List.length hs)) with true
      by (symmetry; apply Nat.ltb_lt; lia).
    destruct (nth_error hs (i + 1)) as [t|] eqn:N;
      [|apply nth_error_None in N; lia].
    eexists. split; [reflexivity|]. split; [exact N|].
    unfold undo. simpl.
    replace (Nat.ltb 0 (i + 1)) with true by (symmetry; apply Nat.ltb_lt; lia).
    replace (i + 1 - 1)%nat with i by lia.
    now rewrite S.
Qed.

(** On a state whose theme is the history entry at the index, undo and redo
    are inverse of each other: undo followed by redo, when undo is enabled,
    and redo followed by undo, when redo is enabled, give the state back. *)
Theorem undo_redo_inverse st :
  inSync st ->
  ((0 < historyIndex st)%nat ->
   exists st', undo st = Some st' /\ inSync st' /\ redo st' = Some st)
  /\ ((historyIndex st + 1 < List.length (history st))%nat ->
      exists st', redo st = Some st' /\ inSync st' /\ undo st' = Some st).
Proof. apply undo_redo_sync. Qed.

Lemma nth_error_firstn_app {A : Type} (l : list A) (i : nat) (x : A) :
  (i < List.length l)%nat ->
  nth_error (firstn (i + 1) l ++ [x]) i = nth_error l i
  /\ nth_error (firstn (i + 1) l ++ [x]) (i + 1) = Some x
  /\ List.length (firstn (i + 1) l) = (i + 1)%nat.
Proof.
  intros H.
  assert (L : List.length (firstn (i + 1) l) = (i + 1)%nat)
    by (rewrite length_firstn; lia).
  repeat split; auto.
  - rewrite nth_error_app1 by lia. rewrite nth_error_firstn.
    now replace (Nat.ltb i (i + 1)) with true by (symmetry; apply Nat.ltb_lt; lia).
  - rewrite nth_error_app2 by lia. rewrite L, Nat.sub_diag. reflexivity.
Qed.

(** An update can be undone and redone. From a state in sync with its
    history, undoing right after an update shows the theme as it was before
    the update, at the index it had, and redoing then gives back the updated
    state. *)
Theorem update_undo_redo clk u d st :
  inSync st ->
  inSync (updateTheme clk u d st)
  /\ exists st',
      undo (updateTheme clk u d st) = Some st'
      /\ theme st' = theme st
      /\ historyIndex st' = historyIndex st
      /\ redo st' = Some (updateTheme clk u d st).
Proof.
  intros S. unfold inSync in S.
  assert (R : (historyIndex st < List.length (history st))%nat)
    by (apply nth_error_Some; congruence).
  destruct (nth_error_firstn_app (history st) (historyIndex st)
              (mergeTheme (theme st) u) R) as (N0 & N1 & L).
  destruct (updateTheme_fields clk u d st) as (Et & Eh & Ei).
  assert (S' : inSync (updateTheme clk u d st)).
  { unfold inSync. now rewrite Et, Eh, Ei, L. }
  split; [exact S'|].
  destruct (undo_redo_sync _ S') as [U _].
  destruct U as (st' & Hu & Hs & Hr); [rewrite Ei, L; lia|].
  exists st'. split; [exact Hu|].
  unfold undo in Hu. rewrite Ei, L, Eh in Hu.
  replace (Nat.ltb 0 (historyIndex st + 1)) with true in Hu
    by (symmetry; apply Nat.ltb_lt; lia).
  replace (historyIndex st + 1 - 1)%nat with (historyIndex st) in Hu by lia.
  rewrite N0, S in Hu. injection Hu as <-. simpl. auto.
Qed.

(** An update cuts the redo branch. Right after an update redo does nothing,
    whatever had been undone before: the history keeps the entries up to the
    old index and ends with the new theme. *)
Theorem update_discards_redo clk u d st :
  redo (updateTheme clk u d st) = Some (updateTheme clk u d st)
  /\ history (updateTheme clk u d st)
     = firstn (historyIndex st + 1) (history st) ++ [mergeTheme (theme st) u]
  /\ (List.length (history (updateTheme clk u d st)) <= historyIndex st + 2)%nat.
Proof.
  destruct (updateTheme_fields clk u d st) as (Et & Eh & Ei).
  repeat split; [|exact Eh|].
  - unfold redo. rewrite Ei, Eh, length_app. simpl.
    now replace (Nat.ltb _ _) with false by (symmetry; apply Nat.ltb_ge; lia).
  - rewrite Eh, length_app, length_firstn. simpl. lia.
Qed.

(** Page, asset and staging edits are not recorded in the history. So after
    any run of such edits, an update followed by undo shows the theme as it
    was before the whole run: the edits made in between are gone from the
    theme on screen. *)
Theorem undo_drops_content_edits acts clk u d st :
  inSync st ->
  forallb isContentAction acts = true ->
  exists st1 st2,
    runEditor acts st = Some st1
    /\ history st1 = history st
    /\ undo (updateTheme clk u d st1) = Some st2
    /\ theme st2 = theme st.
Proof.
  intros S C. unfold inSync in S.
  destruct (content_run_history acts st C) as (st1 & E & Hh & Hi).
  assert (R : (historyIndex st < List.length (history st))%nat)
    by (apply nth_error_Some; congruence).
  destruct (nth_error_firstn_app (history st) (historyIndex st)
              (mergeTheme (theme st1) u) R) as (N0 & N1 & L).
  destruct (updateTheme_fields clk u d st1) as (Et & Eh & Ei).
  rewrite Hh, Hi in Eh, Ei.
  exists st1.
  exists {| theme := theme st;
            history := history (updateTheme clk u d st1);
            historyIndex := historyIndex (updateTheme clk u d st1) - 1;
            stagingChanges := stagingChanges (updateTheme clk u d st1) |}.
  split; [exact E|]. split; [exact Hh|]. split; [|reflexivity].
  unfold undo. rewrite Ei, L, Eh.
  replace (Nat.ltb 0 (historyIndex st + 1)) with true
    by (symmetry; apply Nat.ltb_lt; lia).
  replace (historyIndex st + 1 - 1)%nat with (historyIndex st) by lia.
  rewrite N0, S. reflexivity.
Qed.

End History.

Lemma undo_redo_inverse_witness :
  exists st',
    undo (updateTheme noon (renameTheme "Dark") None (initialEditor sampleTheme)) = Some st'
    /\ inSync st'
    /\ redo st' = Some (updateTheme noon (renameTheme "Dark") None (initialEditor sampleTheme)).
Proof.
  refine (proj1 (undo_redo_inverse
                   (updateTheme noon (renameTheme "Dark") None (initialEditor sampleTheme))
                   _) _).
  - reflexivity.
  - simpl. lia.
Defined.

Lemma update_undo_redo_witness :
  exists st',
    undo (updateTheme noon (renameTheme "Dark") (Some "Renamed") (initialEditor sampleTheme))
    = Some st'
    /\ theme st' = sampleTheme
    /\ historyIndex st' = 0%nat
    /\ redo st'
       = Some (updateTheme noon (renameTheme "Dark") (Some "Renamed")
                 (initialEditor sampleTheme)).
Proof.
  refine (proj2 (update_undo_redo noon (renameTheme "Dark") (Some "Renamed")
                   (initialEditor sampleTheme) _)).
  reflexivity.
Defined.

Lemma undo_drops_content_edits_witness :
  exists st1 st2,
    runEditor [AddPage noon (mkPageConfig "p1" "Pricing" "/pricing" pt_page "default"
                                          "" "" "" false)]
              (initialEditor sampleTheme) = Some st1
    /\ history st1 = [sampleTheme]
    /\ undo (updateTheme noon (renameTheme "Dark") None st1) = Some st2
    /\ theme st2 = sampleTheme.
Proof.
  apply (undo_drops_content_edits
           [AddPage noon (mkPageConfig "p1" "Pricing" "/pricing" pt_page "default"
                                       "" "" "" false)]
           noon (renameTheme "Dark") None (initialEditor sampleTheme)).
  - reflexivity.
  - reflexivity.
Defined.

(** ** Pages *)

Section Content.
Context {T : ConfigTypes}.
Implicit Types (st : @EditorState T) (t : @ThemeConfig T).

Lemma withPages_same t : withPages t (theme_pages t) = t.
Proof. now destruct t. Qed.

Lemma withAssets_same t : withAssets t (theme_assets t) = t.
Proof. now destruct t. Qed.

Lemma setTheme_same st (f : @ThemeConfig T -> @ThemeConfig T) :
  f (theme st) = theme st -> setTheme f st = st.
Proof. destruct st; unfold setTheme; simpl. now intros ->. Qed.

Lemma map_if_none {A : Type} (c : A -> bool) (g : A -> A) (l : list A) :
  (forall x, In x l -> c x = false) ->
  map (fun x => if c x then g x else x) l = l.
Proof.
  induction l as [|a l IH]; simpl; intros H; [reflexivity|].
  rewrite (H a) by now left. f_equal. apply IH. intros; apply H; now right.
Qed.

Lemma filter_all {A : Type} (c : A -> bool) (l : list A) :
  (forall x, In x l -> c x = true) -> filter c l = l.
Proof.
  induction l as [|a l IH]; simpl; intros H; [reflexivity|].
  rewrite (H a) by now left. f_equal. apply IH. intros; apply H; now right.
Qed.

Lemma addStagingChange_entries clk c st :
  stagingChanges (addStagingChange clk c st) = stagingChanges st ++ [stagedEntry clk c].
Proof. reflexivity. Qed.

(** Deleting a page removes every page with the id and keeps the others;
    when some page had the id, one staging change is recorded; when none
    had it, nothing at all changes. *)
Theorem delete_page_effect clk id st :
  (forall p, In p (theme_pages (theme (handleDeletePage clk id st)))
             <-> In p (theme_pages (theme st)) /\ page_id p <> id)
  /\ (forall p, In p (theme_pages (theme st)) -> page_id p = id ->
        List.length (stagingChanges (handleDeletePage clk id st))
        = S (List.length (stagingChanges st)))
  /\ ((forall p, In p (theme_pages (theme st)) -> page_id p <> id) ->
      handleDeletePage clk id st = st).
Proof.
  unfold handleDeletePage. split; [|split].
  - intros p. split.
    + destruct (find _ _); simpl; intros H; apply filter_In in H as [H E];
        (split; [exact H|]); apply negb_true_iff, String.eqb_neq in E; exact E.
    + intros [H E]. apply String.eqb_neq, negb_true_iff in E.
      destruct (find _ _); simpl; apply filter_In; auto.
  - intros p Hp E.
    destruct (find (fun q => (page_id q =? id)%string) (theme_pages (theme st))) eqn:F.
    + rewrite addStagingChange_entries, length_app. simpl. lia.
    + apply (find_none _ _ F) in Hp. simpl in Hp.
      apply String.eqb_neq in Hp. contradiction.
  - intros H.
    rewrite (proj2 (find_none_iff _ _)).
    + apply setTheme_same. rewrite filter_all; [apply withPages_same|].
      intros p Hp. apply negb_true_iff, String.eqb_neq. auto.
    + intros p Hp. apply String.eqb_neq. auto.
Qed.

Lemma handlePageChange_pages clk id u st :
  theme_pages (theme (handlePageChange clk id u st))
  = map (fun p => if (page_id p =? id)%string then mergePage p u else p)
        (theme_pages (theme st)).
Proof. unfold handlePageChange. now destruct (_ || _). Qed.

Lemma handlePageChange_staging clk id u st :
  stagingChanges (handlePageChange clk id u st)
  = if touchesCode u
    then stagingChanges st
         ++ [stagedEntry clk
               {| new_type := if truthyOpt (upd_page_html u) then sc_html
                              else if truthyOpt (upd_page_css u) then sc_css
                              else sc_js;
                  new_page := option_map page_name
                                (find (fun p => (page_id p =? id)%string)
                                      (theme_pages (theme st)));
                  new_description :=
                    String.append "Updated "
                      (String.append
                         (if truthyOpt (upd_page_html u) then "HTML"
                          else if truthyOpt (upd_page_css u) then "CSS"
                          else "JavaScript")
                         (String.append " for "
                            (optionalName
                               (find (fun p => (page_id p =? id)%string)
                                     (theme_pages (theme st))))));
                  new_diff := None |}]
    else stagingChanges st.
Proof. unfold handlePageChange, touchesCode. now destruct (_ || _). Qed.

(** Which page edits are staged. An edit is applied to every page with the
    id, and the number of pages never changes; but it is recorded as a
    staging change only when it carries a non-empty HTML, CSS or JavaScript
    text. An edit that empties these texts, or changes only the name, slug,
    template or type, is applied without any staging entry. *)
Theorem page_change_staging clk id u st :
  List.length (theme_pages (theme (handlePageChange clk id u st)))
  = List.length (theme_pages (theme st))
  /\ (forall p, In p (theme_pages (theme st)) -> page_id p = id ->
        In (mergePage p u) (theme_pages (theme (handlePageChange clk id u st))))
  /\ (touchesCode u = false ->
      stagingChanges (handlePageChange clk id u st) = stagingChanges st)
  /\ (touchesCode u = true ->
      List.length (stagingChanges (handlePageChange clk id u st))
      = S (List.length (stagingChanges st))).
Proof.
  rewrite handlePageChange_pages, handlePageChange_staging.
  split; [|split; [|split]].
  - apply length_map.
  - intros p Hp E. apply in_map_iff. exists p. split; [|exact Hp].
    apply String.eqb_eq in E. now rewrite E.
  - now intros ->.
  - intros ->. rewrite length_app. simpl. lia.
Qed.

(** Editing a page that does not exist. The pages are left as they are, yet a
    code edit is still recorded as a staging change, with no page attached
    and a description that ends in "for undefined". *)
Theorem page_change_missing_page clk id u st :
  (forall p, In p (theme_pages (theme st)) -> page_id p <> id) ->
  theme (handlePageChange clk id u st) = theme st
  /\ (touchesCode u = true ->
      exists ty lang,
        stagingChanges (handlePageChange clk id u st)
        = stagingChanges st
          ++ [mkStagingChange
                (String.append "change-" (Number_toString (clock_now clk)))
                ty None
                (String.append "Updated " (String.append lang " for undefined"))
                (clock_localeString clk) None false]).
Proof.
  intros H.
  assert (F : find (fun p => (page_id p =? id)%string) (theme_pages (theme st)) = None).
  { apply find_none_iff. intros p Hp. apply String.eqb_neq. auto. }
  split.
  - assert (E : handlePageChange clk id u st = 
                if touchesCode u
                then addStagingChange clk
                       {| new_type := if truthyOpt (upd_page_html u) then sc_html
                                      else if truthyOpt (upd_page_css u) then sc_css
                                      else sc_js;
                          new_page := None;
                          new_description :=
                            String.append "Updated "
                              (String.append
                                 (if truthyOpt (upd_page_html u) then "HTML"
                                  else if truthyOpt (upd_page_css u) then "CSS"
                                  else "JavaScript") " for undefined");
                          new_diff := None |} st
                else st).
    { unfold handlePageChange, touchesCode. rewrite F. simpl.
      rewrite setTheme_same; [reflexivity|].
      rewrite map_if_none; [apply withPages_same|].
      intros p Hp. apply String.eqb_neq. auto. }
    rewrite E. now destruct (touchesCode u).
  - intros C. rewrite handlePageChange_staging, C, F. simpl.
    unfold stagedEntry. simpl. eauto.
Qed.

(** ** Staging changes *)

Lemma uncommitted_committed cs :
  uncommitted (map markCommitted cs) = [].
Proof. induction cs as [|c cs IH]; simpl; auto. Qed.

Lemma Forall2_map_right {A B : Type} (R : A -> B -> Prop) (f : A -> B) (l : list A) :
  (forall a, R a (f a)) -> Forall2 R l (map f l).
Proof. intros H. induction l as [|a l IH]; simpl; constructor; auto. Qed.

(** Committing clears the badge and loses nothing. After a commit no staging
    change counts as uncommitted; the entries are those of before, one for
    one and in order, each with its id, type, page, description, timestamp
    and diff, and marked committed; the theme is untouched; and the next
    recorded change is the only uncommitted one. *)
Theorem commit_clears_badge msg clk c st :
  uncommitted (stagingChanges (onCommit msg st)) = []
  /\ map change_id (stagingChanges (onCommit msg st)) = map change_id (stagingChanges st)
  /\ Forall2 (fun old new =>
                change_id new = change_id old
                /\ change_type new = change_type old
                /\ change_page new = change_page old
                /\ change_description new = change_description old
                /\ change_timestamp new = change_timestamp old
                /\ change_diff new = change_diff old
                /\ change_committed new = true)
             (stagingChanges st) (stagingChanges (onCommit msg st))
  /\ theme (onCommit msg st) = theme st
  /\ history (onCommit msg st) = history st
  /\ historyIndex (onCommit msg st) = historyIndex st
  /\ uncommitted (stagingChanges (addStagingChange clk c (onCommit msg st)))
     = [stagedEntry clk c].
Proof.
  unfold onCommit. simpl. split; [|split; [|split; [|split; [|split; [|split]]]]].
  - apply uncommitted_committed.
  - rewrite map_map. reflexivity.
  - apply Forall2_map_right. intros a. simpl. auto 10.
  - reflexivity.
  - reflexivity.
  - reflexivity.
  - unfold uncommitted. rewrite filter_app.
    fold (uncommitted (map markCommitted (stagingChanges st))).
    now rewrite uncommitted_committed.
Qed.

Lemma Number_toString_inj a b : Number_toString a = Number_toString b -> a = b.
Proof.
  unfold Number_toString. intros H.
  assert (NP : forall z, Z.to_int z <> Decimal.Pos Decimal.Nil).
  { intros [|q|q]; simpl; try discriminate.
    intros [= E]. now apply DecimalPos.Unsigned.to_uint_nonnil in E. }
  assert (NN : forall z, Z.to_int z <> Decimal.Neg Decimal.Nil).
  { intros [|q|q]; simpl; try discriminate.
    intros [= E]. now apply DecimalPos.Unsigned.to_uint_nonnil in E. }
  apply (f_equal DecimalString.NilZero.int_of_string) in H.
  rewrite !DecimalString.NilZero.isi in H by auto.
  injection H as H. apply (f_equal Z.of_int) in H.
  now rewrite !DecimalZ.of_to in H.
Qed.

Lemma stagedEntry_id_eqb clk1 clk2 c :
  (change_id (stagedEntry clk2 c)
   =? String.append "change-" (Number_toString (clock_now clk1)))%string
  = (clock_now clk2 =? clock_now clk1).
Proof.
  simpl. destruct (Z.eqb_spec (clock_now clk2) (clock_now clk1)) as [->|N].
  - apply String.eqb_refl.
  - apply String.eqb_neq. intros E. apply N.
    now apply Number_toString_inj.
Qed.

Lemma onDiscard_entries id st :
  stagingChanges (onDiscard id st)
  = filter (fun c => negb (change_id c =? id)%string) (stagingChanges st).
Proof. reflexivity. Qed.

(** Discarding goes by id, and the id is the clock reading. Discarding
    removes every staging change with the given id and keeps the others. Two
    changes recorded at the same millisecond share their id and are discarded
    together; a change recorded at another millisecond is kept. *)
Theorem discard_by_id id clk1 clk2 c1 c2 st :
  (forall c, In c (stagingChanges (onDiscard id st))
             <-> In c (stagingChanges st) /\ change_id c <> id)
  /\ (clock_now clk1 = clock_now clk2 ->
      stagingChanges
        (onDiscard (String.append "change-" (Number_toString (clock_now clk1)))
           (addStagingChange clk2 c2 (addStagingChange clk1 c1 st)))
      = stagingChanges
          (onDiscard (String.append "change-" (Number_toString (clock_now clk1))) st))
  /\ (clock_now clk1 <> clock_now clk2 ->
      stagingChanges
        (onDiscard (String.append "change-" (Number_toString (clock_now clk1)))
           (addStagingChange clk2 c2 (addStagingChange clk1 c1 st)))
      = stagingChanges
          (onDiscard (String.append "change-" (Number_toString (clock_now clk1))) st)
        ++ [stagedEntry clk2 c2]).
Proof.
  split; [|split].
  - intros c. simpl. rewrite filter_In, negb_true_iff, String.eqb_neq. tauto.
  - intros E. rewrite !onDiscard_entries, !addStagingChange_entries, !filter_app.
    cbn [filter]. rewrite !stagedEntry_id_eqb, E, !Z.eqb_refl. simpl.
    now rewrite !app_nil_r.
  - intros N. rewrite !onDiscard_entries, !addStagingChange_entries, !filter_app.
    cbn [filter]. rewrite !stagedEntry_id_eqb, Z.eqb_refl.
    replace (clock_now clk2 =? clock_now clk1) with false
      by (symmetry; apply Z.eqb_neq; congruence).
    simpl. now rewrite app_nil_r.
Qed.

(** ** Assets *)

(** Renaming an asset sets the name of every asset with the id and touches
    nothing else. The assets are those of before, one for one and in order,
    each with its id, type, category, url, thumbnail, size, dimensions, MIME
    type, upload date and usage, and with its name unless it has the id; the
    pages and the other parts of the theme, the undo history and the staging
    changes are as before (a rename is never staged). With no asset of that
    id the state is unchanged. *)
Theorem asset_rename_effect id newName st :
  map asset_id (theme_assets (theme (handleAssetRename id newName st)))
  = map asset_id (theme_assets (theme st))
  /\ (forall a, In a (theme_assets (theme (handleAssetRename id newName st))) ->
        asset_id a = id -> asset_name a = newName)
  /\ (forall a, In a (theme_assets (theme st)) -> asset_id a <> id ->
        In a (theme_assets (theme (handleAssetRename id newName st))))
  /\ stagingChanges (handleAssetRename id newName st) = stagingChanges st
  /\ ((forall a, In a (theme_assets (theme st)) -> asset_id a <> id) ->
      handleAssetRename id newName st = st)
  /\ Forall2 (fun old new =>
                asset_id new = asset_id old
                /\ asset_name new
                   = (if (asset_id old =? id)%string then newName else asset_name old)
                /\ asset_type new = asset_type old
                /\ asset_category new = asset_category old
                /\ asset_url new = asset_url old
                /\ asset_thumbnail new = asset_thumbnail old
                /\ asset_size new = asset_size old
                /\ asset_dimensions new = asset_dimensions old
                /\ asset_mimeType new = asset_mimeType old
                /\ asset_uploadedAt new = asset_uploadedAt old
                /\ asset_usedIn new = asset_usedIn old)
             (theme_assets (theme st))
             (theme_assets (theme (handleAssetRename id newName st)))
  /\ theme_id (theme (handleAssetRename id newName st)) = theme_id (theme st)
  /\ theme_name (theme (handleAssetRename id newName st)) = theme_name (theme st)
  /\ theme_version (theme (handleAssetRename id newName st)) = theme_version (theme st)
  /\ theme_author (theme (handleAssetRename id newName st)) = theme_author (theme st)
  /\ theme_colors (theme (handleAssetRename id newName st)) = theme_colors (theme st)
  /\ theme_typography (theme (handleAssetRename id newName st)) = theme_typography (theme st)
  /\ theme_spacing (theme (handleAssetRename id newName st)) = theme_spacing (theme st)
  /\ theme_borders (theme (handleAssetRename id newName st)) = theme_borders (theme st)
  /\ theme_shadows (theme (handleAssetRename id newName st)) = theme_shadows (theme st)
  /\ theme_animations (theme (handleAssetRename id newName st)) = theme_animations (theme st)
  /\ theme_components (theme (handleAssetRename id newName st)) = theme_components (theme st)
  /\ theme_layout (theme (handleAssetRename id newName st)) = theme_layout (theme st)
  /\ theme_templates (theme (handleAssetRename id newName st)) = theme_templates (theme st)
  /\ theme_pages (theme (handleAssetRename id newName st)) = theme_pages (theme st)
  /\ theme_customCSS (theme (handleAssetRename id newName st)) = theme_customCSS (theme st)
  /\ theme_customJS (theme (handleAssetRename id newName st)) = theme_customJS (theme st)
  /\ history (handleAssetRename id newName st) = history st
  /\ historyIndex (handleAssetRename id newName st) = historyIndex st.
Proof.
  unfold handleAssetRename. simpl.
  split; [|split; [|split; [|split; [|split; [|split]]]]].
  - rewrite map_map. apply map_ext. intros a. now destruct (asset_id a =? id)%string.
  - intros a Ha E. apply in_map_iff in Ha as (a0 & <- & _).
    destruct (asset_id a0 =? id)%string eqn:E0; [reflexivity|].
    apply String.eqb_neq in E0. contradiction.
  - intros a Ha N. apply in_map_iff. exists a. split; [|exact Ha].
    apply String.eqb_neq in N. now rewrite N.
  - reflexivity.
  - intros H. apply setTheme_same.
    rewrite map_if_none; [apply withAssets_same|].
    intros a Ha. apply String.eqb_neq. auto.
  - apply Forall2_map_right. intros a.
    destruct (asset_id a =? id)%string; simpl; auto 20.
  - repeat split.
Qed.

(** Deleting an asset needs the asset and the user's consent. If the user
    declines, or no asset has the id, nothing changes; otherwise every asset
    with the id is removed, the others stay, and one staging change is
    recorded. *)
Theorem asset_delete_guard clk confirmed id st :
  (confirmed = false -> handleAssetDelete clk confirmed id st = st)
  /\ ((forall a, In a (theme_assets (theme st)) -> asset_id a <> id) ->
      handleAssetDelete clk confirmed id st = st)
  /\ (confirmed = true ->
      forall a0, In a0 (theme_assets (theme st)) -> asset_id a0 = id ->
      (forall a, In a (theme_assets (theme (handleAssetDelete clk confirmed id st)))
                 <-> In a (theme_assets (theme st)) /\ asset_id a <> id)
      /\ List.length (stagingChanges (handleAssetDelete clk confirmed id st))
         = S (List.length (stagingChanges st))).
Proof.
  unfold handleAssetDelete. split; [|split].
  - intros ->. now destruct (find _ _).
  - intros H. rewrite (proj2 (find_none_iff _ _)); [reflexivity|].
    intros a Ha. apply String.eqb_neq. auto.
  - intros -> a0 H0 E0.
    destruct (find (fun a => (asset_id a =? id)%string) (theme_assets (theme st))) eqn:F.
    + split.
      * intros a. simpl. rewrite filter_In, negb_true_iff, String.eqb_neq. tauto.
      * rewrite addStagingChange_entries, length_app. simpl. lia.
    + apply (find_none _ _ F) in H0. simpl in H0.
      apply String.eqb_neq in H0. contradiction.
Qed.

End Content.

Lemma delete_page_effect_witness :
  handleDeletePage noon "ghost" (initialEditor sampleTheme) = initialEditor sampleTheme
  /\ List.length (stagingChanges (handleDeletePage noon "about" (initialEditor sampleTheme)))
     = 1%nat.
Proof.
  split.
  - apply (proj2 (proj2 (delete_page_effect noon "ghost" (initialEditor sampleTheme)))).
    intros p Hp. simpl in Hp. destruct Hp as [<-|[<-|[]]]; simpl; discriminate.
  - apply (proj1 (proj2 (delete_page_effect noon "about" (initialEditor sampleTheme)))
             aboutPage).
    + simpl. right. left. reflexivity.
    + reflexivity.
Defined.

Lemma page_change_staging_witness :
  stagingChanges (handlePageChange noon "home" (htmlUpdate "") (initialEditor sampleTheme))
  = [].
Proof.
  apply (proj1 (proj2 (proj2 (page_change_staging noon "home" (htmlUpdate "")
                                (initialEditor sampleTheme))))).
  reflexivity.
Defined.

Lemma page_change_missing_page_witness :
  exists ty lang,
    stagingChanges (handlePageChange noon "ghost" (htmlUpdate "<p>hi</p>")
                      (initialEditor sampleTheme))
    = [] ++ [mkStagingChange
               (String.append "change-" (Number_toString 1736500000000))
               ty None
               (String.append "Updated " (String.append lang " for undefined"))
               "1/10/2025, 12:00:00 PM" None false].
Proof.
  refine (proj2 (page_change_missing_page noon "ghost" (htmlUpdate "<p>hi</p>")
                   (initialEditor sampleTheme) _) _).
  - intros p Hp. simpl in Hp. destruct Hp as [<-|[<-|[]]]; simpl; discriminate.
  - reflexivity.
Defined.

Lemma discard_by_id_witness :
  stagingChanges
    (onDiscard (String.append "change-" (Number_toString (clock_now noon)))
       (addStagingChange noon (mkNewChange sc_css None "second" None)
          (addStagingChange noon (mkNewChange sc_html None "first" None)
             (initialEditor sampleTheme))))
  = stagingChanges
      (onDiscard (String.append "change-" (Number_toString (clock_now noon)))
         (initialEditor sampleTheme)).
Proof.
  apply (proj1 (proj2 (discard_by_id "" noon noon
                         (mkNewChange sc_html None "first" None)
                         (mkNewChange sc_css None "second" None)
                         (initialEditor sampleTheme)))).
  reflexivity.
Defined.

Lemma asset_rename_effect_witness :
  handleAssetRename "asset-9" "hero.png" (initialEditor themeWithLogo)
  = initialEditor themeWithLogo.
Proof.
  apply (proj2 (proj2 (proj2 (proj2 (asset_rename_effect "asset-9" "hero.png"
                                       (initialEditor themeWithLogo)))))).
  intros a Ha. simpl in Ha. destruct Ha as [<-|[]]. simpl. discriminate.
Defined.

Lemma asset_delete_guard_witness :
  handleAssetDelete noon false "asset-1" (initialEditor themeWithLogo)
  = initialEditor themeWithLogo
  /\ List.length (stagingChanges
                    (handleAssetDelete noon true "asset-1" (initialEditor themeWithLogo)))
     = 1%nat.
Proof.
  split.
  - apply (proj1 (asset_delete_guard noon false "asset-1" (initialEditor themeWithLogo))).
    reflexivity.
  - refine (proj2 (proj2 (proj2 (asset_delete_guard noon true "asset-1"
                                   (initialEditor themeWithLogo))) _ logoAsset _ _)).
    + reflexivity.
    + simpl. left. reflexivity.
    + reflexivity.
Defined.

(** ** Uploading and replacing assets *)

Section Upload.
Context {T : ConfigTypes}.
Implicit Types (st : @EditorState T).

Lemma uploadOne_fields st fe :
  theme_assets (theme (uploadOne st fe))
  = theme_assets (theme st) ++ [uploadedAsset (fst fe) (snd fe)]
  /\ theme_pages (theme (uploadOne st fe)) = theme_pages (theme st)
  /\ map change_description (stagingChanges (uploadOne st fe))
     = map change_description (stagingChanges st)
       ++ [String.append "Uploaded asset: " (file_name (fst fe))].
Proof.
  unfold uploadOne. simpl. rewrite map_app. auto.
Qed.

(** Uploading appends. The files become assets at the end of the list, one
    per file and in the order given, each in the category 'other' and used
    nowhere; the assets already there and the pages are untouched; and one
    staging change per file is recorded, in the same order. *)
Theorem upload_appends files st :
  theme_assets (theme (handleAssetUpload files st))
  = theme_assets (theme st)
    ++ map (fun fe => uploadedAsset (fst fe) (snd fe)) files
  /\ theme_pages (theme (handleAssetUpload files st)) = theme_pages (theme st)
  /\ map change_description (stagingChanges (handleAssetUpload files st))
     = map change_description (stagingChanges st)
       ++ map (fun fe => String.append "Uploaded asset: " (file_name (fst fe))) files
  /\ Forall (fun a => asset_category a = ac_other /\ asset_usedIn a = [])
            (map (fun fe => uploadedAsset (fst fe) (snd fe)) files).
Proof.
  unfold handleAssetUpload. split; [|split; [|split]].
  - revert st. induction files as [|fe files IH]; intros st; simpl.
    + now rewrite app_nil_r.
    + rewrite IH. destruct (uploadOne_fields st fe) as (-> & _).
      now rewrite <- app_assoc.
  - revert st. induction files as [|fe files IH]; intros st; simpl; [reflexivity|].
    rewrite IH. now destruct (uploadOne_fields st fe) as (_ & -> & _).
  - revert st. induction files as [|fe files IH]; intros st; simpl.
    + now rewrite app_nil_r.
    + rewrite IH. destruct (uploadOne_fields st fe) as (_ & _ & ->).
      now rewrite <- app_assoc.
  - apply Forall_forall. intros a Ha. apply in_map_iff in Ha as (fe & <- & _).
    simpl. auto.
Qed.

(** Replacing the file of an asset keeps what identifies and classifies it:
    the ids, types and categories of all assets are as before, so the type
    is not recomputed from the new file; the assets with the id take the
    file's name and MIME type; and nothing is staged. *)
Theorem replace_keeps_identity id file url date st :
  map asset_id (theme_assets (theme (handleAssetReplace id file url date st)))
  = map asset_id (theme_assets (theme st))
  /\ map asset_type (theme_assets (theme (handleAssetReplace id file url date st)))
     = map asset_type (theme_assets (theme st))
  /\ map asset_category (theme_assets (theme (handleAssetReplace id file url date st)))
     = map asset_category (theme_assets (theme st))
  /\ (forall a, In a (theme_assets (theme (handleAssetReplace id file url date st))) ->
        asset_id a = id ->
        asset_name a = file_name file /\ asset_mimeType a = file_type file
        /\ asset_size a = file_size file)
  /\ stagingChanges (handleAssetReplace id file url date st) = stagingChanges st.
Proof.
  unfold handleAssetReplace. simpl. split; [|split; [|split; [|split]]].
  - rewrite map_map. apply map_ext. intros a. now destruct (asset_id a =? id)%string.
  - rewrite map_map. apply map_ext. intros a. now destruct (asset_id a =? id)%string.
  - rewrite map_map. apply map_ext. intros a. now destruct (asset_id a =? id)%string.
  - intros a Ha E. apply in_map_iff in Ha as (a0 & <- & _).
    destruct (asset_id a0 =? id)%string eqn:E0; [simpl; auto|].
    apply String.eqb_neq in E0. contradiction.
  - reflexivity.
Qed.

End Upload.

Lemma replace_keeps_identity_witness :
  asset_name (replaceAsset fontFile "blob:2" "2025-01-11" logoAsset) = "Inter.woff2"
  /\ asset_mimeType (replaceAsset fontFile "blob:2" "2025-01-11" logoAsset) = ""
  /\ asset_size (replaceAsset fontFile "blob:2" "2025-01-11" logoAsset) = 51200.
Proof.
  apply (proj1 (proj2 (proj2 (proj2
           (replace_keeps_identity "asset-1" fontFile "blob:2" "2025-01-11"
              (initialEditor themeWithLogo)))))).
  - simpl. left. reflexivity.
  - reflexivity.
Defined.

Lemma prefix_shorter (a b s : string) :
  String.prefix (String.append a b) s = true -> String.prefix a s = true.
Proof.
  revert s; induction a as [|c a IH]; intros s; [now destruct s|].
  destruct s as [|d s]; simpl; [discriminate|].
  destruct (Ascii.ascii_dec c d); [apply IH|discriminate].
Qed.

(** How an uploaded file is typed. The MIME type decides first: a type that
    starts with "image/" gives 'svg' or 'image' whatever the file is called,
    font extension included. Failing that, a name ending in .woff, .woff2,
    .ttf, .otf or .eot gives 'font' even when the MIME type is empty. The
    types 'icon' and 'document' are never given. *)
Theorem upload_type_rules file :
  (String.prefix "image/" (file_type file) = true ->
   uploadedAssetType file = at_svg \/ uploadedAssetType file = at_image)
  /\ (String.prefix "image/" (file_type file) = false ->
      hasFontExtension (file_name file) = true ->
      uploadedAssetType file = at_font)
  /\ uploadedAssetType file <> at_icon
  /\ uploadedAssetType file <> at_document.
Proof.
  unfold uploadedAssetType. split; [|split; [|split]].
  - intros ->. destruct (String.prefix "image/svg" _); auto.
  - intros N F. rewrite N, F, orb_true_r.
    destruct (String.prefix "image/svg" (file_type file)) eqn:S; [|reflexivity].
    apply (prefix_shorter "image/" "svg") in S. congruence.
  - repeat match goal with |- context [if ?c then _ else _] => destruct c end;
      discriminate.
  - repeat match goal with |- context [if ?c then _ else _] => destruct c end;
      discriminate.
Qed.

Lemma upload_type_rules_witness : uploadedAssetType fontFile = at_font.
Proof.
  apply (proj1 (proj2 (upload_type_rules fontFile))); reflexivity.
Defined.
